(** * Eterna front end: the token collection and its event handlers

    A shallow embedding of [frontend/script.js]: the module-level state
    ([allTokens], [filteredTokens], [currentPage], [updateCount]), the
    socket handlers that reconcile pushed events into [allTokens], the
    continuation of [fetchTokens] once the HTTP response is in, and the
    pagination arithmetic of [renderTokens] / [updatePagination].

    Payloads arrive as parsed JSON, so a value is a tree: two entries of
    [allTokens] are never the same object, and a value of one event is never
    the same object as a value of an earlier one.  That is why the store is
    a list of values and an assignment to a record is an update of its
    entry.  [filteredTokens] is a shallow copy that shares its records with
    [allTokens]; the model refreshes it where the script does, in
    [applyClientFilters], so between a tick loop that an exception cut short
    and the next refresh the copy kept here can be behind the shared
    records.  Nothing below reads it in that window.

    The DOM, the console and the highlight timers are not part of the
    state; what is kept of the rendering code is where it can throw. *)

From Stdlib Require Import ZArith QArith Qround.
From Stdlib Require Import Floats.PrimFloat Floats.SpecFloat Floats.FloatOps Floats.FloatAxioms.
From stdpp Require Import gmap strings list fin_maps pretty.

#[local] Set Warnings "-register-all".

(** ** JavaScript values and the primitive operations the script uses *)

Module Js.

(** A parsed JSON value.  Numbers are binary64 floats.  A string is its
    sequence of code units, kept here in Rocq's 8-bit [string].  An array
    carries, besides its elements, the named properties an assignment such
    as [token.price_sol = x] may add to it. *)
Inductive value : Type :=
  | VUndef
  | VNull
  | VBool (b : bool)
  | VNum (f : float)
  | VStr (s : string)
  | VArr (elems : list value) (extra : gmap string value)
  | VObj (props : gmap string value).

(** The result of evaluating an expression: a value, or a thrown exception
    (the only one these handlers can raise is a [TypeError]). *)
Inductive outcome (A : Type) : Type :=
  | Ret (a : A)
  | Throw.
Arguments Ret {A} a.
Arguments Throw {A}.

Definition obind {A B} (o : outcome A) (k : A → outcome B) : outcome B :=
  match o with
  | Ret a => k a
  | Throw => Throw
  end.

Definition is_nullish (v : value) : bool :=
  match v with
  | VUndef | VNull => true
  | _ => false
  end.

(** ToBoolean: [undefined], [null], [false], [±0], [NaN] and [""] are falsy. *)
Definition truthy (v : value) : bool :=
  match v with
  | VUndef | VNull => false
  | VBool b => b
  | VNum f => negb (PrimFloat.is_zero f || PrimFloat.is_nan f)
  | VStr s => negb (String.eqb s "")
  | VArr _ _ | VObj _ => true
  end.

(** [Array.isArray] *)
Definition isArray (v : value) : bool :=
  match v with
  | VArr _ _ => true
  | _ => false
  end.

(** The elements [forEach] visits. *)
Definition elements (v : value) : list value :=
  match v with
  | VArr l _ => l
  | _ => []
  end.

(** [a === b].  Primitives compare by value ([NaN] differs from itself, [+0]
    equals [-0]); objects and arrays compare by identity, and the two sides
    of every comparison in the script come from different payloads, hence
    are never the same object. *)
Definition strict_eq (a b : value) : bool :=
  match a, b with
  | VUndef, VUndef => true
  | VNull, VNull => true
  | VBool x, VBool y => Bool.eqb x y
  | VNum x, VNum y => PrimFloat.eqb x y
  | VStr x, VStr y => String.eqb x y
  | _, _ => false
  end.

(** [v.k] for the property names the script reads ([data], [token_address],
    [new_price], ...): none of them is an index or a built-in property, so on
    a primitive or on an array without such a named property the read gives
    [undefined]; on [undefined] and [null] it throws. *)
Definition get (v : value) (k : string) : outcome value :=
  match v with
  | VUndef | VNull => Throw
  | VObj m => Ret (default VUndef (m !! k))
  | VArr _ m => Ret (default VUndef (m !! k))
  | VBool _ | VNum _ | VStr _ => Ret VUndef
  end.

(** [v.k = x] in sloppy mode (the script has no ["use strict"]) on a truthy
    [v]: an object or array gets the property, on a primitive the assignment
    is silently dropped. *)
Definition set_prop (k : string) (x : value) (v : value) : value :=
  match v with
  | VObj m => VObj (<[k := x]> m)
  | VArr l m => VArr l (<[k := x]> m)
  | _ => v
  end.

Definition index_props (l : list value) : gmap string value :=
  list_to_map (imap (λ (i : nat) x, (pretty i, x)) l).

Definition code_units (s : string) : list value :=
  (λ c, VStr (String c EmptyString)) <$> String.list_ascii_of_string s.

(** The own enumerable properties that [...v] copies in an object literal. *)
Definition own_props (v : value) : gmap string value :=
  match v with
  | VObj m => m
  | VArr l m => m ∪ index_props l
  | VStr s => index_props (code_units s)
  | VUndef | VNull | VBool _ | VNum _ => ∅
  end.

(** [{ ...a, ...b }]: the properties of [b] win. *)
Definition spread (a b : value) : value :=
  VObj (own_props b ∪ own_props a).

(** Whether [ToString(v)] returns, as a template literal and [parseFloat]
    apply it.  A primitive always has a string form.  An object is asked
    for its [toString] and then its [valueOf]: parsed JSON holds no
    function, so an own property named [toString] hides the inherited
    method with something that cannot be called, [valueOf] then gives back
    the object itself or cannot be called either, and the conversion throws
    a [TypeError]; without such a property the inherited [toString]
    answers.  For an array the inherited [toString] is [join], which
    converts every element other than [undefined] and [null] in turn; an
    own property named [join], not callable, makes it fall back to the
    method of objects, which looks at no element. *)
Fixpoint stringifies (v : value) : bool :=
  match v with
  | VUndef | VNull | VBool _ | VNum _ | VStr _ => true
  | VObj m =>
      match m !! "toString" with
      | Some _ => false
      | None => true
      end
  | VArr l extra =>
      match extra !! "toString" with
      | Some _ => false
      | None =>
          match extra !! "join" with
          | Some _ => true
          | None => forallb (λ x, is_nullish x || stringifies x) l
          end
      end
  end.

(** [a || b] once [b] has its value. *)
Definition or_else (a b : value) : value :=
  if truthy a then a else b.

(** [n++] on a number holding an integer: exact below 2^53, where adding one
    rounds back to 2^53. *)
Definition num_succ (n : Z) : Z :=
  if (n <? 2 ^ 53)%Z then (n + 1)%Z else n.

(** [Array.prototype.slice(start, end)] *)
Definition slice {A} (l : list A) (start end_ : Z) : list A :=
  let len := Z.of_nat (length l) in
  let k := if (start <? 0)%Z then Z.max (len + start) 0 else Z.min start len in
  let final := if (end_ <? 0)%Z then Z.max (len + end_) 0 else Z.min end_ len in
  take (Z.to_nat (final - k)) (drop (Z.to_nat k) l).

(** [findIndex]: the first position whose element satisfies the callback;
    [None] stands for the [-1] of the source.  An exception in the callback
    ends the search. *)
Fixpoint findIndex (p : value → outcome bool) (l : list value) : outcome (option nat) :=
  match l with
  | [] => Ret None
  | t :: l' =>
      match p t with
      | Throw => Throw
      | Ret true => Ret (Some 0%nat)
      | Ret false =>
          match findIndex p l' with
          | Ret (Some i) => Ret (Some (S i))
          | r => r
          end
      end
  end.

End Js.
Export Js.

(** ** The module-level state and the monad of a handler *)

Record state : Type := State {
  allTokens : list value;
  filteredTokens : list value;
  currentPage : Z;
  updateCount : Z;
}.

(** [let allTokens = []; let filteredTokens = []; let currentPage = 1;
     let updateCount = 0;] *)
Definition initial_state : state :=
  {| allTokens := []; filteredTokens := []; currentPage := 1; updateCount := 0 |}.

Definition with_allTokens (l : list value) (s : state) : state :=
  {| allTokens := l; filteredTokens := filteredTokens s;
     currentPage := currentPage s; updateCount := updateCount s |}.
Definition with_filteredTokens (l : list value) (s : state) : state :=
  {| allTokens := allTokens s; filteredTokens := l;
     currentPage := currentPage s; updateCount := updateCount s |}.
Definition with_currentPage (p : Z) (s : state) : state :=
  {| allTokens := allTokens s; filteredTokens := filteredTokens s;
     currentPage := p; updateCount := updateCount s |}.
Definition with_updateCount (c : Z) (s : state) : state :=
  {| allTokens := allTokens s; filteredTokens := filteredTokens s;
     currentPage := currentPage s; updateCount := c |}.

(** A handler reads and writes the state and may throw; what it wrote before
    throwing stays written. *)
Definition M (A : Type) : Type := state → outcome A * state.

Definition ret {A} (a : A) : M A := λ s, (Ret a, s).
Definition throw {A} : M A := λ s, (Throw, s).
Definition bind {A B} (m : M A) (k : A → M B) : M B :=
  λ s, match m s with
       | (Ret a, s') => k a s'
       | (Throw, s') => (Throw, s')
       end.
Definition lift {A} (o : outcome A) : M A := λ s, (o, s).
Definition gets {A} (f : state → A) : M A := λ s, (Ret (f s), s).
Definition modify (f : state → state) : M unit := λ s, (Ret (), f s).
(** [try { m } catch (error) { h }] *)
Definition try_catch {A} (m h : M A) : M A :=
  λ s, match m s with
       | (Throw, s') => h s'
       | r => r
       end.

Declare Scope js_scope.
Delimit Scope js_scope with js.
Notation "'let*' x ':=' m 'in' k" := (bind m (λ x, k))
  (at level 10, x name, m at level 100, k at level 200) : js_scope.
Notation "m1 ;; m2" := (bind m1 (λ _, m2))
  (at level 100, m2 at level 200, right associativity) : js_scope.
Local Open Scope js_scope.

(** [arr.forEach(f)] *)
Fixpoint forEach (f : value → M unit) (l : list value) : M unit :=
  match l with
  | [] => ret ()
  | x :: l' => f x ;; forEach f l'
  end.

(** ** The script *)

Definition tokensPerPage : Z := 25.

(** [start], [end] and [pageTokens] of [renderTokens]. *)
Definition pageTokens (s : state) : list value :=
  let start := ((currentPage s - 1) * tokensPerPage)%Z in
  let end_ := (start + tokensPerPage)%Z in
  slice (filteredTokens s) start end_.

(** [Math.ceil(filteredTokens.length / tokensPerPage)].  The quotient is
    taken exactly: a length is below 2^32, a multiple of 25 divides exactly
    and any other length is at least 1/25 away from a multiple, far more
    than the rounding of the division, so the ceiling of the rounded
    quotient is the ceiling of the exact one. *)
Definition totalPages (s : state) : Z :=
  Qceiling (inject_Z (Z.of_nat (length (filteredTokens s))) / inject_Z tokensPerPage)%Q.

(** [ToString(v)] in a handler: the string goes to the page, what matters
    here is whether the conversion throws. *)
Definition ToString (v : value) : M unit :=
  if stringifies v then ret () else throw.

(** [parseFloat(v)] converts its argument to a string before it reads a
    number off it; reading the number cannot fail. *)
Definition parseFloat (v : value) : M unit := ToString v.

(** [a || token.k]: the property is read only when [a] is falsy. *)
Definition or_read (a token : value) (k : string) : M value :=
  if truthy a then ret a else lift (get token k).

(** [formatNumber(num)]: [if (!num) return '0'], then [parseFloat(num)];
    the comparisons and [toFixed] that follow work on a number. *)
Definition formatNumber (num : value) : M unit :=
  if truthy num then parseFloat num else ret ().

(** The callback of [pageTokens.map] in [renderTokens]: the fields it
    reads, in the order of the source, and the conversions to a string that
    [parseFloat], [formatNumber] and the template literal apply to them. *)
Definition render_row (token : value) : M unit :=
  let* change := lift (get token "price_24hr_change") in
  let* change := or_read change token "price_change_24h" in
  parseFloat (or_else change (VNum 0)) ;;
  let* address := lift (get token "token_address") in
  ToString address ;;
  let* name := lift (get token "token_name") in
  ToString (or_else name (VStr "Unknown")) ;;
  let* ticker := lift (get token "token_ticker") in
  ToString (or_else ticker (VStr "N/A")) ;;
  let* price := lift (get token "price_sol") in
  parseFloat (or_else price (VNum 0)) ;;
  let* volume := lift (get token "volume_sol") in
  let* volume := or_read volume token "volume_24h" in
  formatNumber (or_else volume (VNum 0)) ;;
  let* liquidity := lift (get token "liquidity_sol") in
  let* liquidity := or_read liquidity token "liquidity" in
  formatNumber (or_else liquidity (VNum 0)) ;;
  let* protocol := lift (get token "protocol") in
  ToString (or_else protocol (VStr "N/A")).

(** [updatePagination] only writes to the page. *)
Definition updatePagination : M unit := ret ().

(** The callback of [allTokens.reduce] in [updateStats]:
    [sum + parseFloat(t.volume_sol || t.volume_24h || 0)]. *)
Definition add_volume (t : value) : M unit :=
  let* volume := lift (get t "volume_sol") in
  let* volume := or_read volume t "volume_24h" in
  parseFloat (or_else volume (VNum 0)).

(** [updateStats]: the sum over the whole collection; the total is a
    number, which [formatNumber] always formats. *)
Definition updateStats : M unit :=
  let* l := gets allTokens in
  forEach add_volume l.

Definition renderTokens : M unit :=
  let* page := gets pageTokens in
  if decide (length page = 0%nat) then ret ()
  else forEach render_row page ;; updatePagination ;; updateStats.

Definition applyClientFilters : M unit :=
  modify (λ s, with_filteredTokens (allTokens s) s) ;;
  renderTokens.

Definition prevPage : M unit :=
  let* p := gets currentPage in
  if (1 <? p)%Z then modify (with_currentPage (p - 1)) ;; renderTokens
  else ret ().

Definition nextPage : M unit :=
  let* n := gets totalPages in
  let* p := gets currentPage in
  if (p <? n)%Z then modify (with_currentPage (p + 1)) ;; renderTokens
  else ret ().

(** [applyFilters] issues the request (see [fetchTokens_resume] for its
    continuation) and resets the page. *)
Definition applyFilters : M unit :=
  modify (with_currentPage 1).

(** [highlightToken] starts a timer that touches the page only. *)
Definition highlightToken (address : value) : M unit := ret ().

(** [t => t.token_address === x.token_address] *)
Definition same_address (x t : value) : outcome bool :=
  obind (get t "token_address") (λ a,
  obind (get x "token_address") (λ b,
  Ret (strict_eq a b))).

Definition incrUpdateCount : M unit :=
  modify (λ s, with_updateCount (num_succ (updateCount s)) s).

(** [socket.on('initial_data', ...)] *)
Definition initial_data (event : value) : M unit :=
  let* d := lift (get event "data") in
  if truthy d && isArray d then
    modify (with_allTokens (elements d)) ;;
    applyClientFilters
  else ret ().

(** The callback of [event.data.forEach] in [tokens_updated]. *)
Definition tokens_updated_item (updated : value) : M unit :=
  let* l := gets allTokens in
  let* idx := lift (findIndex (same_address updated) l) in
  match idx with
  | Some i =>
      modify (with_allTokens (<[i := spread (default VUndef (l !! i)) updated]> l)) ;;
      let* a := lift (get updated "token_address") in
      highlightToken a
  | None => ret ()
  end.

(** [socket.on('tokens_updated', ...)] *)
Definition tokens_updated (event : value) : M unit :=
  incrUpdateCount ;;
  let* d := lift (get event "data") in
  if truthy d && isArray d then
    forEach tokens_updated_item (elements d) ;;
    applyClientFilters
  else ret ().

(** [Array.isArray(event.data) ? event.data : [event.data]] *)
Definition as_batch (d : value) : list value :=
  if isArray d then elements d else [d].

(** [token.k = x] on the entry of [allTokens] that [find] returned. *)
Definition assign_at (i : nat) (k : string) (x : value) : M unit :=
  modify (λ s, with_allTokens (alter (set_prop k x) i (allTokens s)) s).

(** The callback of [updates.forEach] in [price_update].  [find] returns the
    first entry the callback accepts, kept here with its position. *)
Definition price_update_item (update : value) : M unit :=
  let* l := gets allTokens in
  let* found := lift (findIndex (same_address update) l) in
  match found with
  | Some i =>
      if truthy (default VUndef (l !! i)) then
        let* p := lift (get update "new_price") in
        assign_at i "price_sol" p ;;
        let* c := lift (get update "change_percent") in
        assign_at i "price_24hr_change" c ;;
        let* a := lift (get update "token_address") in
        highlightToken a
      else ret ()
  | None => ret ()
  end.

(** [socket.on('price_update', ...)] *)
Definition price_update (event : value) : M unit :=
  incrUpdateCount ;;
  let* d := lift (get event "data") in
  forEach price_update_item (as_batch d) ;;
  applyClientFilters.

(** The callback of [spikes.forEach] in [volume_spike]. *)
Definition volume_spike_item (spike : value) : M unit :=
  let* l := gets allTokens in
  let* found := lift (findIndex (same_address spike) l) in
  match found with
  | Some i =>
      if truthy (default VUndef (l !! i)) then
        let* v := lift (get spike "new_volume") in
        assign_at i "volume_sol" v ;;
        let* a := lift (get spike "token_address") in
        highlightToken a
      else ret ()
  | None => ret ()
  end.

(** [socket.on('volume_spike', ...)] *)
Definition volume_spike (event : value) : M unit :=
  incrUpdateCount ;;
  let* d := lift (get event "data") in
  forEach volume_spike_item (as_batch d) ;;
  applyClientFilters.

(** [allTokens.unshift(x); if (allTokens.length > 100) allTokens.pop();] *)
Definition unshift_bounded (x : value) (l : list value) : list value :=
  let l1 := x :: l in
  if (100 <? Z.of_nat (length l1))%Z then removelast l1 else l1.

(** [socket.on('new_token', ...)] *)
Definition new_token (event : value) : M unit :=
  incrUpdateCount ;;
  let* d := lift (get event "data") in
  if truthy d then
    modify (λ s, with_allTokens (unshift_bounded d (allTokens s)) s) ;;
    applyClientFilters ;;
    let* a := lift (get d "token_address") in
    highlightToken a
  else ret ().

(** What [fetchTokens] awaits: the request or the JSON parse fails, or the
    parsed body is there. *)
Inductive response : Type :=
  | FetchFailed
  | FetchOk (data : value).

(** [data.data?.data || data.data || []] *)
Definition fetched_tokens (data : value) : outcome value :=
  obind (get data "data") (λ d,
  obind (if is_nullish d then Ret VUndef else get d "data") (λ inner,
  Ret (if truthy inner then inner
       else if truthy d then d
       else VArr [] ∅))).

(** The callback of [allTokens.map] that builds [priceChanges]. *)
Definition price_change_row (t : value) : M unit :=
  let* _ := lift (get t "token_name") in ret ().

(** [fetchTokens] from the point where the awaited response is in; nothing
    is awaited after that, so the rest runs as one step.  When the value
    picked from the body is not an array, [allTokens.map] is not a function:
    the call throws and the handler of the [catch] overwrites [allTokens]
    before anything can read the value just assigned. *)
Definition fetchTokens_resume (r : response) : M unit :=
  try_catch
    match r with
    | FetchFailed => throw
    | FetchOk data =>
        let* v := lift (fetched_tokens data) in
        match v with
        | VArr l _ =>
            modify (with_allTokens l) ;;
            forEach price_change_row l ;;
            applyClientFilters
        | _ => throw
        end
    end
    (modify (with_allTokens []) ;; applyClientFilters).

(** ** The event loop *)

Inductive event : Type :=
  | InitialData (payload : value)
  | TokensUpdated (payload : value)
  | PriceUpdate (payload : value)
  | VolumeSpike (payload : value)
  | NewToken (payload : value)
  | FetchDone (r : response)
  | ApplyFilters
  | PrevPage
  | NextPage.

Definition handle (e : event) : M unit :=
  match e with
  | InitialData v => initial_data v
  | TokensUpdated v => tokens_updated v
  | PriceUpdate v => price_update v
  | VolumeSpike v => volume_spike v
  | NewToken v => new_token v
  | FetchDone r => fetchTokens_resume r
  | ApplyFilters => applyFilters
  | PrevPage => prevPage
  | NextPage => nextPage
  end.

(** One turn of the loop: an exception escaping a handler is reported and
    the loop goes on with the state as the handler left it. *)
Definition step (s : state) (e : event) : state := (handle e s).2.

Definition run (es : list event) (s : state) : state := foldl step s es.

(** The events that count as live updates. *)
Definition is_update (e : event) : bool :=
  match e with
  | TokensUpdated _ | PriceUpdate _ | VolumeSpike _ | NewToken _ => true
  | _ => false
  end.

(** An event object [{ data: d }]. *)
Definition with_data (d : value) : value := VObj {[ "data" := d ]}.

(** An array as parsed from JSON. *)
Definition arr (l : list value) : value := VArr l ∅.

(** An object literal. *)
Definition obj (l : list (string * value)) : value := VObj (list_to_map l).

(** ** Notions the statements use *)

(** The state once a handler has counted its event. *)
Definition counted (s : state) : state :=
  with_updateCount (num_succ (updateCount s)) s.

(** The state with both sequences empty. *)
Definition emptied (s : state) : state :=
  with_filteredTokens [] (with_allTokens [] s).

(** One [new_token] event per payload, in order. *)
Definition new_tokens (ds : list value) : list event :=
  (λ d, NewToken (with_data d)) <$> ds.

(** The address a record shows: its [token_address]. *)
Definition address_of (v : value) : value :=
  match get v "token_address" with
  | Ret a => a
  | Throw => VUndef
  end.

Definition is_undefined (v : value) : bool :=
  match v with
  | VUndef => true
  | _ => false
  end.

(** The record shows an address: reading [token_address] gives a value
    other than [undefined]. *)
Definition has_address (t : value) : bool :=
  match get t "token_address" with
  | Ret VUndef => false
  | Ret _ => true
  | Throw => false
  end.

(** [item] matches no stored record: the comparison of addresses is false
    for every entry of the collection. *)
Definition unmatched (l : list value) (item : value) : Prop :=
  Forall (λ t, same_address item t = Ret false) l.

(** What the three patch callbacks have in common: an item the search does
    not resolve is passed over, and a call writes nothing but entries of
    [allTokens], whose length it keeps. *)
Record patch_callback (f : value → M unit) : Prop := {
  pc_not_found x s :
    findIndex (same_address x) (allTokens s) = Ret None → f x s = (Ret (), s);
  pc_frame x s :
    ∃ l, (f x s).2 = with_allTokens l s ∧ length l = length (allTokens s);
}.

(** A value with the properties named in [ks] taken away: two values that
    agree after that differ at most in those properties. *)
Definition drop_props (ks : list string) (v : value) : value :=
  match v with
  | VObj m => VObj (filter (λ kv, kv.1 ∉ ks) m)
  | VArr l m => VArr l (filter (λ kv, kv.1 ∉ ks) m)
  | _ => v
  end.

(** The properties a price tick, respectively a volume tick, assigns. *)
Definition price_fields : list string := ["price_sol"; "price_24hr_change"].
Definition volume_fields : list string := ["volume_sol"].

(** A tick callback either leaves the state as it is, or rewrites the entry
    the search resolved, by a function that only touches properties of [ks]. *)
Record tick_callback (ks : list string) (f : value → M unit) : Prop := {
  tc_step x s :
    (f x s).2 = s ∨
    ∃ i g, findIndex (same_address x) (allTokens s) = Ret (Some i) ∧
           (f x s).2 = with_allTokens (alter g i (allTokens s)) s ∧
           ∀ t, drop_props ks (g t) = drop_props ks t;
}.

(** Relative to the state [s] a tick loop started in: only [allTokens] is
    written; every record is what it was outside the properties of [ks];
    and a record that no item of the batch names is what it was. *)
Definition tick_frame (ks : list string) (items : list value) (s s' : state) : Prop :=
  s' = with_allTokens (allTokens s') s ∧
  drop_props ks <$> allTokens s' = drop_props ks <$> allTokens s ∧
  ∀ j t, allTokens s !! j = Some t →
         Forall (λ x, same_address x t ≠ Ret true) items →
         allTokens s' !! j = Some t.

(** ** Sample payloads and states *)

(** A stored record of address ["A"], and the store holding just it. *)
Definition tokenA : value :=
  obj [("token_address", VStr "A"); ("price_sol", VNum 1); ("volume_sol", VNum 5)].
Definition storeA : state := with_allTokens [tokenA] initial_state.

(** Patches: for ["A"], for the unknown address ["B"], and without address. *)
Definition patchA : value :=
  obj [("token_address", VStr "A"); ("price_sol", VNum 2)].
Definition patchB : value :=
  obj [("token_address", VStr "B"); ("price_sol", VNum 9)].
Definition no_address_item : value := obj [("price_sol", VNum 7)].

(** A tick for ["A"] carrying the fields of both tick events. *)
Definition tickA : value :=
  obj [("token_address", VStr "A"); ("new_price", VNum 3);
       ("change_percent", VNum 50); ("new_volume", VNum 8)].

(** 101 records with the addresses ["0"] to ["100"]. *)
Definition tokens101 : list value :=
  (λ i : nat, obj [("token_address", VStr (pretty i))]) <$> seq 0 101.

(** A working sequence of 26 records, shown at page 2. *)
Definition store26 : state :=
  with_currentPage 2 (with_filteredTokens (replicate 26 tokenA) initial_state).

(** One event of each update kind; the third is not even an object. *)
Definition four_updates : list event :=
  [TokensUpdated (with_data (arr [patchA; patchB]));
   PriceUpdate (with_data tickA);
   VolumeSpike VNull;
   NewToken (with_data patchB)].

(** A record and a patch that both lack [token_address]. *)
Definition nameless_record : value :=
  obj [("token_name", VStr "Nameless"); ("price_sol", VNum 1)].
Definition nameless_patch : value := obj [("price_sol", VNum 2)].
Definition store_with_nameless : state :=
  with_allTokens [tokenA; nameless_record] initial_state.

(** An earlier patch for ["A"] that also carries a volume. *)
Definition patchA_volume : value :=
  obj [("token_address", VStr "A"); ("price_sol", VNum 4); ("volume_sol", VNum 6)].

(** The 26 records shown at page 1. *)
Definition store26_first : state := with_currentPage 1 store26.

(** ** What rendering needs of a record *)

(** The value of a property of a record that is not [undefined] or [null]. *)
Definition field (t : value) (k : string) : value :=
  match get t k with
  | Ret v => v
  | Throw => VUndef
  end.

(** The values a row of the table converts to a string. *)
Definition shown (t : value) : list value :=
  [or_else (field t "price_24hr_change") (field t "price_change_24h");
   field t "token_address";
   field t "token_name";
   field t "token_ticker";
   field t "price_sol";
   or_else (field t "volume_sol") (field t "volume_24h");
   or_else (field t "liquidity_sol") (field t "liquidity");
   field t "protocol"].

(** A record a row can be built from. *)
Definition displayable (t : value) : bool :=
  negb (is_nullish t) && forallb stringifies (shown t).

(** A record whose volume the statistics can add up. *)
Definition summable (t : value) : bool :=
  negb (is_nullish t)
  && stringifies (or_else (field t "volume_sol") (field t "volume_24h")).

(** Whether [renderTokens] returns in a state: the page is empty, or every
    record on it is displayable and every record of the collection summable. *)
Definition renders (s : state) : bool :=
  match pageTokens s with
  | [] => true
  | _ => forallb displayable (pageTokens s) && forallb summable (allTokens s)
  end.

(** A record whose name is an object with an own property [toString]: no
    string can be made of it. *)
Definition unprintable_token : value :=
  obj [("token_address", VStr "U");
       ("token_name", obj [("toString", VNum 1)])].

(** ** Navigation and kinds of events *)

(** [prevBtn.disabled] and [nextBtn.disabled] as [updatePagination] sets
    them: [currentPage === 1] and [currentPage >= totalPages]. *)
Definition prevBtn_disabled (s : state) : bool := (currentPage s =? 1)%Z.
Definition nextBtn_disabled (s : state) : bool := (totalPages s <=? currentPage s)%Z.

(** The events that install a whole collection. *)
Definition is_snapshot (e : event) : bool :=
  match e with
  | InitialData _ | FetchDone _ => true
  | _ => false
  end.

(** The snapshot the socket pushes. *)
Definition is_pushed_snapshot (e : event) : bool :=
  match e with
  | InitialData _ => true
  | _ => false
  end.

(** The events that come from the page controls. *)
Definition is_navigation (e : event) : bool :=
  match e with
  | ApplyFilters | PrevPage | NextPage => true
  | _ => false
  end.

(** The state with the working sequence refreshed from the collection, as
    the first statement of [applyClientFilters] leaves it. *)
Definition refreshed (s : state) : state :=
  with_filteredTokens (allTokens s) s.

(** The state after a turn, written as the state before with a collection,
    a page number and a counter put in, and the working sequence refreshed
    or not. *)
Definition turn (l : list value) (p c : Z) (fresh : bool) (s : state) : state :=
  let s' := with_currentPage p (with_updateCount c (with_allTokens l s)) in
  if fresh then refreshed s' else s'.

(** The three patch callbacks look at the collection only: in two states
    with the same collection they end the same way and leave the same
    collection. *)
Definition reads_collection_only (f : value → M unit) : Prop :=
  ∀ x s s', allTokens s = allTokens s' →
    (f x s).1 = (f x s').1 ∧ allTokens (f x s).2 = allTokens (f x s').2.

(** ** Ticks as functions of the collection *)

(** The assignment a price tick, respectively a volume tick, makes to the
    record it names. *)
Definition price_assign (u : value) : value → value :=
  match get u "new_price", get u "change_percent" with
  | Ret p, Ret c => set_prop "price_24hr_change" c ∘ set_prop "price_sol" p
  | _, _ => id
  end.

Definition volume_assign (v : value) : value → value :=
  match get v "new_volume" with
  | Ret x => set_prop "volume_sol" x
  | Throw => id
  end.

(** A tick callback as a function of the collection: how it ends and the
    collection it leaves. *)
Definition tick_effect (g : value → value) (u : value) (l : list value)
  : outcome () * list value :=
  match findIndex (same_address u) l with
  | Ret (Some i) => (Ret (), if truthy (default VUndef (l !! i)) then alter g i l else l)
  | Ret None => (Ret (), l)
  | Throw => (Throw, l)
  end.

(** A tick loop as a function of the collection. *)
Fixpoint tick_loop (assign : value → value → value) (items : list value) (l : list value)
  : outcome () * list value :=
  match items with
  | [] => (Ret (), l)
  | x :: rest =>
      match tick_effect (assign x) x l with
      | (Ret _, l') => tick_loop assign rest l'
      | (Throw, l') => (Throw, l')
      end
  end.

(** An assignment that leaves the address and the truthiness of a record. *)
Definition keeps_identity (g : value → value) : Prop :=
  (∀ x t, same_address x (g t) = same_address x t) ∧
  (∀ t, truthy (g t) = truthy t).

(** ** General facts about the monad, [forEach] and [findIndex] *)

(** Unfolds the operations of the monad, and the two steps of the script
    that only touch the page. *)
Ltac unfold_M :=
  unfold bind, ret, lift, gets, modify, throw, try_catch, highlightToken,
    updatePagination in *.

Lemma get_with_data (d : value) : get (with_data d) "data" = Ret d.
Proof. unfold with_data, get. by rewrite lookup_singleton_eq. Qed.

Lemma forEach_app (f : value → M unit) (xs ys : list value) (s : state) :
  forEach f (xs ++ ys) s =
  match forEach f xs s with
  | (Ret _, s1) => forEach f ys s1
  | (Throw, s1) => (Throw, s1)
  end.
Proof.
  revert s. induction xs as [|x xs IH]; intros s; simpl; [done|].
  unfold bind. destruct (f x s) as [[[]|] s1]; [apply IH|done].
Qed.

(** A property of the state that every call of the callback keeps is kept
    by the whole loop, however it ends. *)
Lemma forEach_inv (I : state → Prop) (f : value → M unit) (l : list value) (s : state) :
  (∀ x s0, I s0 → I (f x s0).2) → I s → I (forEach f l s).2.
Proof.
  intros Hf. revert s. induction l as [|x l IH]; intros s Hs; simpl; [done|].
  unfold bind. specialize (Hf x s Hs).
  destruct (f x s) as [[[]|] s1]; simpl in *; [by apply IH|done].
Qed.

Lemma forEach_readonly (f : value → M unit) (l : list value) (s : state) :
  (∀ x s0, (f x s0).2 = s0) → (forEach f l s).2 = s.
Proof.
  intros Hf. apply (forEach_inv (λ s', s' = s)); [|done].
  intros x s0 ->. apply Hf.
Qed.

(** A loop whose callback returns without touching the state on every item
    does the same. *)
Lemma forEach_skip (f : value → M unit) (l : list value) (s : state) :
  Forall (λ x, f x s = (Ret (), s)) l → forEach f l s = (Ret (), s).
Proof.
  induction 1 as [|x l Hx _ IH]; simpl; [done|].
  unfold bind. by rewrite Hx.
Qed.

Lemma findIndex_Some (p : value → outcome bool) (l : list value) (i : nat) :
  findIndex p l = Ret (Some i) ↔
  ∃ t, l !! i = Some t ∧ p t = Ret true ∧
       ∀ j t', (j < i)%nat → l !! j = Some t' → p t' = Ret false.
Proof.
  revert i. induction l as [|t l IH]; intros i; simpl.
  - split; [done|]. by intros (t & Ht & _).
  - destruct (p t) as [[]|] eqn:Hp.
    + split.
      * intros [= <-]. exists t. repeat split; [done|]. intros j t' Hj. lia.
      * intros (t0 & Hi & Ht0 & Hlt). destruct i as [|i]; [done|].
        specialize (Hlt 0%nat t ltac:(lia) eq_refl). congruence.
    + split.
      * destruct (findIndex p l) as [[j|]|] eqn:Hf; try done.
        intros [= <-]. destruct (proj1 (IH j) eq_refl) as (t0 & Hj & Ht0 & Hlt).
        exists t0. repeat split; [done..|].
        intros [|j'] t' Hj' Ht'; simpl in Ht'; [congruence|].
        apply (Hlt j'); [lia|done].
      * intros (t0 & Hi & Ht0 & Hlt). destruct i as [|i]; simpl in Hi; [congruence|].
        assert (findIndex p l = Ret (Some i)) as ->; [|done].
        apply IH. exists t0. repeat split; [done..|].
        intros j t' Hj Ht'. apply (Hlt (S j)); [lia|done].
    + split; [done|].
      intros (t0 & Hi & Ht0 & Hlt). destruct i as [|i]; simpl in Hi; [congruence|].
      specialize (Hlt 0%nat t ltac:(lia) eq_refl). congruence.
Qed.

Lemma findIndex_None (p : value → outcome bool) (l : list value) :
  findIndex p l = Ret None ↔ Forall (λ t, p t = Ret false) l.
Proof.
  induction l as [|t l IH]; simpl; [by split|].
  rewrite Forall_cons. destruct (p t) as [[]|]; [by split; [|intros []]| |by split; [|intros []]].
  rewrite <- IH. destruct (findIndex p l) as [[i|]|]; by split; [|intros []..].
Qed.

(** When the search succeeds, reading the address of the item did not throw. *)
Lemma same_address_found (x : value) (l : list value) (i : nat) :
  findIndex (same_address x) l = Ret (Some i) → ∃ a, get x "token_address" = Ret a.
Proof.
  intros (t & _ & Ht & _)%findIndex_Some. unfold same_address, obind in Ht.
  destruct (get t "token_address"); [|done].
  destruct (get x "token_address") as [b|]; [by exists b|done].
Qed.

(** ** The rendering code leaves the state alone *)

Lemma ToString_state (v : value) (s : state) : (ToString v s).2 = s.
Proof. unfold ToString. by destruct (stringifies v). Qed.

Lemma or_read_state (a token : value) (k : string) (s : state) :
  (or_read a token k s).2 = s.
Proof. unfold or_read. by destruct (truthy a). Qed.

(** A step that leaves the state, followed by steps that leave it, leaves
    it. *)
Lemma bind_state {A B} (m : M A) (k : A → M B) (s : state) :
  (m s).2 = s → (∀ a, (k a s).2 = s) → (bind m k s).2 = s.
Proof.
  intros Hm Hk. unfold bind. destruct (m s) as [[a|] s1]; simpl in *; subst s1; [|done].
  apply Hk.
Qed.

Ltac reads_only :=
  repeat first
    [ apply ToString_state
    | apply or_read_state
    | progress unfold parseFloat, formatNumber
    | match goal with |- ((if ?b then _ else _) _).2 = _ => destruct b end
    | done
    | apply bind_state; [|intros ?] ].

Lemma render_row_state (token : value) (s : state) : (render_row token s).2 = s.
Proof. unfold render_row. reads_only. Qed.

Lemma add_volume_state (t : value) (s : state) : (add_volume t s).2 = s.
Proof. unfold add_volume. reads_only. Qed.

Lemma renderTokens_state (s : state) : (renderTokens s).2 = s.
Proof.
  unfold renderTokens. apply bind_state; [done|]. intros page.
  destruct (decide _); [done|].
  apply bind_state; [apply forEach_readonly; intros; apply render_row_state|].
  intros _. apply bind_state; [done|]. intros _.
  unfold updateStats. apply bind_state; [done|]. intros l.
  apply forEach_readonly. intros. apply add_volume_state.
Qed.

Lemma applyClientFilters_state (s : state) :
  (applyClientFilters s).2 = with_filteredTokens (allTokens s) s.
Proof.
  unfold applyClientFilters. unfold_M.
  pose proof (renderTokens_state (with_filteredTokens (allTokens s) s)) as H.
  by destruct (renderTokens _) as [[[]|] s1].
Qed.

(** Running [applyClientFilters] after [m]: the collection and the counter
    are those [m] left. *)
Lemma then_applyClientFilters_allTokens (m : M unit) (s : state) :
  allTokens (bind m (λ _, applyClientFilters) s).2 = allTokens (m s).2.
Proof.
  unfold bind. destruct (m s) as [[[]|] s1]; simpl; [|done].
  by rewrite applyClientFilters_state.
Qed.

Lemma then_applyClientFilters_updateCount (m : M unit) (s : state) :
  updateCount (bind m (λ _, applyClientFilters) s).2 = updateCount (m s).2.
Proof.
  unfold bind. destruct (m s) as [[[]|] s1]; simpl; [|done].
  by rewrite applyClientFilters_state.
Qed.

(** ** Bulk patches: [tokens_updated] *)

Lemma spread_lookup (a b : value) (k : string) :
  (own_props b ∪ own_props a) !! k =
  match own_props b !! k with
  | Some x => Some x
  | None => own_props a !! k
  end.
Proof.
  rewrite lookup_union. destruct (own_props b !! k), (own_props a !! k); done.
Qed.

Lemma tokens_updated_item_found (updated : value) (s : state) (i : nat) :
  findIndex (same_address updated) (allTokens s) = Ret (Some i) →
  tokens_updated_item updated s =
  (Ret (), with_allTokens
             (<[i := spread (default VUndef (allTokens s !! i)) updated]> (allTokens s)) s).
Proof.
  intros Hf. destruct (same_address_found _ _ _ Hf) as [a Ha].
  unfold tokens_updated_item. unfold_M. by rewrite Hf, Ha.
Qed.

Lemma tokens_updated_item_not_found (updated : value) (s : state) :
  findIndex (same_address updated) (allTokens s) = Ret None →
  tokens_updated_item updated s = (Ret (), s).
Proof.
  intros Hf. unfold tokens_updated_item. unfold_M. by rewrite Hf.
Qed.

(** What [tokens_updated] does to the collection is what its loop does. *)
Lemma tokens_updated_allTokens (ev d : value) (s : state) :
  get ev "data" = Ret d → truthy d && isArray d = true →
  allTokens (tokens_updated ev s).2 =
  allTokens (forEach tokens_updated_item (elements d)
               (with_updateCount (num_succ (updateCount s)) s)).2.
Proof.
  intros Hd Hguard. unfold tokens_updated, incrUpdateCount.
  unfold bind at 1. unfold modify at 1. unfold bind at 1. unfold lift at 1.
  rewrite Hd, Hguard. apply then_applyClientFilters_allTokens.
Qed.

(** The callback and the handler on a one-item event, when the search
    resolves the item to position [i]. *)
Lemma tokens_updated_merge_step (updated : value) (s : state) (i : nat) (stored : value) :
  findIndex (same_address updated) (allTokens s) = Ret (Some i) →
  allTokens s !! i = Some stored →
  tokens_updated_item updated s =
    (Ret (), with_allTokens (<[i := spread stored updated]> (allTokens s)) s) ∧
  allTokens (tokens_updated (with_data (arr [updated])) s).2 =
    <[i := spread stored updated]> (allTokens s).
Proof.
  intros Hf Hi.
  pose proof (tokens_updated_item_found updated s i Hf) as Hitem.
  rewrite Hi in Hitem. simpl in Hitem. split; [exact Hitem|].
  rewrite (tokens_updated_allTokens _ (arr [updated])); [|apply get_with_data|done].
  simpl. unfold bind.
  rewrite (tokens_updated_item_found updated (with_updateCount _ s) i Hf).
  simpl. by rewrite Hi.
Qed.

(** C1. A bulk-patch item whose address matches the stored record at
    position [i], the first record it matches, replaces that record by an
    object holding every field of the item and, for every field the item
    does not have, the value the stored record had; the other positions are
    not written.  This holds for the callback in any state, and for the
    handler on an event carrying that single item. *)
Theorem tokens_updated_merge_is_field_union
    (s : state) (updated stored : value) (i : nat) :
  allTokens s !! i = Some stored →
  same_address updated stored = Ret true →
  (∀ j t, (j < i)%nat → allTokens s !! j = Some t → same_address updated t = Ret false) →
  ∃ merged : gmap string value,
    (∀ k, merged !! k =
          match own_props updated !! k with
          | Some x => Some x
          | None => own_props stored !! k
          end) ∧
    tokens_updated_item updated s =
      (Ret (), with_allTokens (<[i := VObj merged]> (allTokens s)) s) ∧
    allTokens (tokens_updated (with_data (arr [updated])) s).2 =
      <[i := VObj merged]> (allTokens s).
Proof.
  intros Hi Hmatch Hfirst.
  assert (findIndex (same_address updated) (allTokens s) = Ret (Some i)) as Hf.
  { apply findIndex_Some. by exists stored. }
  exists (own_props updated ∪ own_props stored).
  split; [intros k; apply spread_lookup|].
  apply (tokens_updated_merge_step updated s i stored Hf Hi).
Qed.

Lemma tokens_updated_merge_is_field_union_witness :
  ∃ merged : gmap string value,
    (∀ k, merged !! k =
          match own_props patchA !! k with
          | Some x => Some x
          | None => own_props tokenA !! k
          end) ∧
    tokens_updated_item patchA storeA =
      (Ret (), with_allTokens (<[0%nat := VObj merged]> (allTokens storeA)) storeA) ∧
    allTokens (tokens_updated (with_data (arr [patchA])) storeA).2 =
      <[0%nat := VObj merged]> (allTokens storeA).
Proof.
  apply (tokens_updated_merge_is_field_union storeA patchA tokenA 0).
  - reflexivity.
  - vm_compute. reflexivity.
  - intros j t Hj. lia.
Defined.

(** The example of the specification: a stored price of 1 and volume of 5,
    patched with a price of 2, gives a price of 2 and the volume still 5. *)
Example tokens_updated_price_only :
  allTokens (tokens_updated (with_data (arr [patchA])) storeA).2 =
  [obj [("token_address", VStr "A"); ("price_sol", VNum 2); ("volume_sol", VNum 5)]].
Proof. vm_compute. reflexivity. Qed.

(** ** New entities: [new_token] *)

Lemma truthy_get (d : value) (k : string) : truthy d = true → ∃ a, get d k = Ret a.
Proof. destruct d; simpl; try done; eauto. Qed.

(** The state after a [new_token] event that carries a truthy payload. *)
Lemma new_token_inserts (ev d : value) (s : state) :
  get ev "data" = Ret d → truthy d = true →
  (new_token ev s).2 =
  with_filteredTokens (unshift_bounded d (allTokens s))
    (with_allTokens (unshift_bounded d (allTokens s))
       (with_updateCount (num_succ (updateCount s)) s)).
Proof.
  intros Hd Ht. unfold new_token, incrUpdateCount.
  unfold bind at 1. unfold modify at 1. unfold bind at 1. unfold lift at 1.
  rewrite Hd, Ht. unfold bind at 1. unfold modify at 1. unfold bind at 1.
  match goal with |- context [applyClientFilters ?s0] =>
    pose proof (applyClientFilters_state s0) as Hs;
    destruct (applyClientFilters s0) as [[[]|] s1] end; simpl in Hs; subst s1.
  - destruct (truthy_get d "token_address" Ht) as [a Ha].
    unfold_M. by rewrite Ha.
  - done.
Qed.

(** The state after a [new_token] event whose payload is falsy. *)
Lemma new_token_ignores (ev d : value) (s : state) :
  get ev "data" = Ret d → truthy d = false →
  new_token ev s = (Ret (), with_updateCount (num_succ (updateCount s)) s).
Proof.
  intros Hd Ht. unfold new_token, incrUpdateCount. unfold_M. by rewrite Hd, Ht.
Qed.

Lemma unshift_bounded_below (d : value) (l : list value) :
  (length l < 100)%nat → unshift_bounded d l = d :: l.
Proof.
  intros Hl. unfold unshift_bounded.
  destruct (Z.ltb_spec 100 (Z.of_nat (length (d :: l)))) as [H|H]; [|done].
  simpl in H. lia.
Qed.

(** On overflow exactly the last record goes. *)
Lemma unshift_bounded_evicts (d : value) (l : list value) :
  (100 ≤ length l)%nat →
  ∃ evicted, last l = Some evicted ∧ unshift_bounded d l ++ [evicted] = d :: l.
Proof.
  intros Hl. unfold unshift_bounded.
  destruct (Z.ltb_spec 100 (Z.of_nat (length (d :: l)))) as [H|H];
    [|simpl in H; lia].
  destruct (exists_last (l := l)) as (front & z & ->).
  { intros ->. simpl in Hl. lia. }
  exists z. rewrite last_snoc. split; [done|].
  by rewrite app_comm_cons, removelast_last.
Qed.

Lemma unshift_bounded_take (d : value) (l : list value) :
  (length l ≤ 100)%nat → unshift_bounded d l = take 100 (d :: l).
Proof.
  intros Hl. destruct (decide (length l < 100)%nat) as [Hlt|Hge].
  - rewrite unshift_bounded_below by done. rewrite take_ge; [done|simpl; lia].
  - destruct (unshift_bounded_evicts d l) as (z & _ & Hz); [lia|].
    assert (length (unshift_bounded d l) = 100%nat) as Hlen.
    { apply (f_equal length) in Hz. rewrite length_app in Hz. simpl in Hz. lia. }
    rewrite <- Hz. rewrite take_app_le by lia. rewrite take_ge; [done|lia].
Qed.

Lemma run_new_tokens (ds : list value) (s : state) :
  Forall (λ d, truthy d = true) ds →
  (length (allTokens s) ≤ 100)%nat →
  allTokens (run (new_tokens ds) s) = take 100 (reverse ds ++ allTokens s).
Proof.
  intros Hds. revert s. induction Hds as [|d ds Hd _ IH]; intros s Hs.
  - simpl. rewrite take_ge; [done|lia].
  - change (run (new_tokens (d :: ds)) s)
      with (run (new_tokens ds) (new_token (with_data d) s).2).
    assert (allTokens (new_token (with_data d) s).2 = take 100 (d :: allTokens s))
      as Hstep.
    { rewrite (new_token_inserts _ d) by (by rewrite ?get_with_data).
      by apply unshift_bounded_take. }
    rewrite IH; rewrite Hstep.
    + rewrite reverse_cons, <- app_assoc.
      change ([d] ++ allTokens s) with (d :: allTokens s).
      rewrite !(take_app (reverse ds) _ 100). f_equal.
      rewrite take_take. f_equal. lia.
    + rewrite length_take. lia.
Qed.

(** C2. Starting from an empty collection, after any number of [new_token]
    events with truthy payloads the collection holds the (at most) 100 most
    recent payloads, most recent first; after 101 of them it holds exactly
    the last 100 and, when the addresses are pairwise different, the address
    of the first one is gone.  In any state, an insertion that takes the
    collection past 100 records removes exactly one record, the last one. *)
Theorem new_token_keeps_100_most_recent (s : state) (ds : list value) :
  allTokens s = [] →
  Forall (λ d, truthy d = true) ds →
  let s' := run (new_tokens ds) s in
  allTokens s' = take 100 (reverse ds) ∧
  (length ds = 101%nat →
     ∃ first rest, ds = first :: rest ∧
       allTokens s' = reverse rest ∧
       length (allTokens s') = 100%nat ∧
       (NoDup (address_of <$> ds) →
        address_of first ∉ address_of <$> allTokens s')) ∧
  (∀ (s0 : state) (ev d : value),
     get ev "data" = Ret d → truthy d = true →
     (100 < length (d :: allTokens s0))%nat →
     ∃ evicted, last (allTokens s0) = Some evicted ∧
                allTokens (new_token ev s0).2 ++ [evicted] = d :: allTokens s0).
Proof.
  intros Hs Hds s'.
  assert (allTokens s' = take 100 (reverse ds)) as Hall.
  { unfold s'. rewrite run_new_tokens; [|done|rewrite Hs; simpl; lia].
    by rewrite Hs, app_nil_r. }
  split; [done|]. split.
  - intros Hlen. destruct ds as [|first rest]; [done|].
    exists first, rest. simpl in Hlen.
    assert (allTokens s' = reverse rest) as Hrest.
    { rewrite Hall, reverse_cons, take_app_le by (rewrite length_reverse; lia).
      apply take_ge. rewrite length_reverse. lia. }
    repeat split; [done| |].
    + rewrite Hrest, length_reverse. lia.
    + rewrite Hrest, fmap_reverse, elem_of_reverse. simpl.
      by intros [Hnotin _]%NoDup_cons.
  - intros s0 ev d Hd Ht Hlen.
    rewrite (new_token_inserts ev d) by done. simpl.
    apply unshift_bounded_evicts. simpl in Hlen. lia.
Qed.

Lemma new_token_keeps_100_most_recent_witness :
  allTokens (run (new_tokens tokens101) initial_state) =
  take 100 (reverse tokens101).
Proof.
  apply (new_token_keeps_100_most_recent initial_state tokens101).
  - reflexivity.
  - apply Forall_fmap, Forall_true. intros i. reflexivity.
Defined.

(** The 101 inserts on concrete records: the addresses left are ["100"]
    down to ["1"]; ["0"], inserted first, is gone. *)
Example new_token_101_addresses :
  address_of <$> allTokens (run (new_tokens tokens101) initial_state) =
  (λ i : nat, VStr (pretty i)) <$> reverse (seq 1 100).
Proof. vm_compute. reflexivity. Qed.

(** ** Loops over patch items *)

Lemma with_allTokens_same (s : state) : with_allTokens (allTokens s) s = s.
Proof. by destruct s. Qed.

Lemma tokens_updated_item_callback : patch_callback tokens_updated_item.
Proof.
  split.
  - apply tokens_updated_item_not_found.
  - intros x s. unfold tokens_updated_item. unfold_M.
    destruct (findIndex _ _) as [[i|]|]; simpl.
    + destruct (get x "token_address"); simpl;
        (eexists; split; [done|by rewrite length_insert]).
    + exists (allTokens s). by rewrite with_allTokens_same.
    + exists (allTokens s). by rewrite with_allTokens_same.
Qed.

Lemma price_update_item_callback : patch_callback price_update_item.
Proof.
  split.
  - intros x s Hf. unfold price_update_item. unfold_M. by rewrite Hf.
  - intros x s. unfold price_update_item, assign_at. unfold_M.
    destruct (findIndex _ _) as [[i|]|]; simpl;
      [|exists (allTokens s); by rewrite with_allTokens_same..].
    destruct (truthy _); simpl;
      [|exists (allTokens s); by rewrite with_allTokens_same].
    destruct (get x "new_price"); simpl;
      [|exists (allTokens s); by rewrite with_allTokens_same].
    destruct (get x "change_percent"); simpl;
      [|eexists; split; [done|by rewrite length_alter]].
    destruct (get x "token_address"); simpl;
      (eexists; split; [done|by rewrite !length_alter]).
Qed.

Lemma volume_spike_item_callback : patch_callback volume_spike_item.
Proof.
  split.
  - intros x s Hf. unfold volume_spike_item. unfold_M. by rewrite Hf.
  - intros x s. unfold volume_spike_item, assign_at. unfold_M.
    destruct (findIndex _ _) as [[i|]|]; simpl;
      [|exists (allTokens s); by rewrite with_allTokens_same..].
    destruct (truthy _); simpl;
      [|exists (allTokens s); by rewrite with_allTokens_same].
    destruct (get x "new_volume"); simpl;
      [|exists (allTokens s); by rewrite with_allTokens_same].
    destruct (get x "token_address"); simpl;
      (eexists; split; [done|by rewrite !length_alter]).
Qed.

Section PatchLoop.
Variable f : value → M unit.
Hypothesis Hf : patch_callback f.

Lemma patch_loop_frame (items : list value) (s : state) :
  ∃ l, (forEach f items s).2 = with_allTokens l s ∧
       length l = length (allTokens s).
Proof.
  apply (forEach_inv
           (λ s', ∃ l, s' = with_allTokens l s ∧ length l = length (allTokens s))).
  - intros x s0 (l & -> & Hl).
    destruct (pc_frame f Hf x (with_allTokens l s)) as (l' & -> & Hl').
    exists l'. split; [done|]. simpl in Hl'. congruence.
  - exists (allTokens s). by rewrite with_allTokens_same.
Qed.

Lemma patch_loop_not_found (items : list value) (s : state) :
  Forall (λ x, findIndex (same_address x) (allTokens s) = Ret None) items →
  forEach f items s = (Ret (), s).
Proof.
  intros Hall. apply forEach_skip. eapply Forall_impl; [exact Hall|].
  intros x Hx. by apply (pc_not_found f Hf).
Qed.

(** An item the search does not resolve when the loop reaches it can be
    taken out of the batch. *)
Lemma patch_loop_drop (pre post : list value) (x : value) (s s1 : state) :
  forEach f pre s = (Ret (), s1) →
  findIndex (same_address x) (allTokens s1) = Ret None →
  forEach f (pre ++ x :: post) s = forEach f (pre ++ post) s.
Proof.
  intros Hpre Hx. rewrite !forEach_app, Hpre. simpl. unfold bind.
  by rewrite (pc_not_found f Hf x s1 Hx).
Qed.
End PatchLoop.

(** The collection after each patch handler is the collection after its
    loop, if the handler gets that far. *)
Lemma tokens_updated_effect (ev : value) (s : state) :
  allTokens (tokens_updated ev s).2 =
  match get ev "data" with
  | Ret d =>
      if truthy d && isArray d
      then allTokens (forEach tokens_updated_item (elements d) (counted s)).2
      else allTokens s
  | Throw => allTokens s
  end.
Proof.
  destruct (get ev "data") as [d|] eqn:Hd.
  - destruct (truthy d && isArray d) eqn:Hg.
    + by apply tokens_updated_allTokens.
    + unfold tokens_updated, incrUpdateCount. unfold_M. by rewrite Hd, Hg.
  - unfold tokens_updated, incrUpdateCount. unfold_M. by rewrite Hd.
Qed.

Lemma price_update_effect (ev : value) (s : state) :
  allTokens (price_update ev s).2 =
  match get ev "data" with
  | Ret d => allTokens (forEach price_update_item (as_batch d) (counted s)).2
  | Throw => allTokens s
  end.
Proof.
  unfold price_update, incrUpdateCount.
  unfold bind at 1. unfold modify at 1. unfold bind at 1. unfold lift at 1.
  destruct (get ev "data") as [d|]; [|done].
  apply then_applyClientFilters_allTokens.
Qed.

Lemma volume_spike_effect (ev : value) (s : state) :
  allTokens (volume_spike ev s).2 =
  match get ev "data" with
  | Ret d => allTokens (forEach volume_spike_item (as_batch d) (counted s)).2
  | Throw => allTokens s
  end.
Proof.
  unfold volume_spike, incrUpdateCount.
  unfold bind at 1. unfold modify at 1. unfold bind at 1. unfold lift at 1.
  destruct (get ev "data") as [d|]; [|done].
  apply then_applyClientFilters_allTokens.
Qed.

Lemma unmatched_findIndex (l : list value) (item : value) :
  unmatched l item ↔ findIndex (same_address item) l = Ret None.
Proof. unfold unmatched. by rewrite findIndex_None. Qed.

Lemma patch_handlers_keep_length (ev : value) (s : state) :
  length (allTokens (tokens_updated ev s).2) = length (allTokens s) ∧
  length (allTokens (price_update ev s).2) = length (allTokens s) ∧
  length (allTokens (volume_spike ev s).2) = length (allTokens s).
Proof.
  rewrite tokens_updated_effect, price_update_effect, volume_spike_effect.
  destruct (get ev "data") as [d|]; [|done].
  destruct (patch_loop_frame _ tokens_updated_item_callback (elements d) (counted s))
    as (l1 & -> & H1).
  destruct (patch_loop_frame _ price_update_item_callback (as_batch d) (counted s))
    as (l2 & -> & H2).
  destruct (patch_loop_frame _ volume_spike_item_callback (as_batch d) (counted s))
    as (l3 & -> & H3).
  by destruct (truthy d && isArray d).
Qed.

(** C3. An item of a bulk patch, price tick or volume tick whose address
    matches no stored record is passed over by the callback with the state
    exactly as it was; an event all of whose items are such leaves the
    collection as it was; and no patch event, whatever it carries, changes
    the number of records. *)
Theorem unknown_address_patch_is_dropped (s : state) (item : value) :
  unmatched (allTokens s) item →
  (tokens_updated_item item s = (Ret (), s) ∧
   price_update_item item s = (Ret (), s) ∧
   volume_spike_item item s = (Ret (), s)) ∧
  (∀ ev d : value,
     get ev "data" = Ret d →
     (Forall (unmatched (allTokens s)) (elements d) →
      allTokens (tokens_updated ev s).2 = allTokens s) ∧
     (Forall (unmatched (allTokens s)) (as_batch d) →
      allTokens (price_update ev s).2 = allTokens s ∧
      allTokens (volume_spike ev s).2 = allTokens s)) ∧
  (∀ (ev : value) (s0 : state),
     length (allTokens (tokens_updated ev s0).2) = length (allTokens s0) ∧
     length (allTokens (price_update ev s0).2) = length (allTokens s0) ∧
     length (allTokens (volume_spike ev s0).2) = length (allTokens s0)).
Proof.
  intros Hitem%unmatched_findIndex. split; [|split].
  - repeat split.
    + by apply (pc_not_found _ tokens_updated_item_callback).
    + by apply (pc_not_found _ price_update_item_callback).
    + by apply (pc_not_found _ volume_spike_item_callback).
  - intros ev d Hd. split.
    + intros Hall. rewrite tokens_updated_effect, Hd.
      destruct (truthy d && isArray d); [|done].
      rewrite (patch_loop_not_found _ tokens_updated_item_callback); [done|].
      eapply Forall_impl; [exact Hall|]. intros x Hx. by apply unmatched_findIndex.
    + intros Hall. rewrite price_update_effect, volume_spike_effect, Hd.
      assert (Forall (λ x, findIndex (same_address x) (allTokens (counted s)) = Ret None)
                (as_batch d)) as Hall'.
      { eapply Forall_impl; [exact Hall|]. intros x Hx. by apply unmatched_findIndex. }
      rewrite (patch_loop_not_found _ price_update_item_callback) by done.
      by rewrite (patch_loop_not_found _ volume_spike_item_callback).
  - intros ev s0. apply patch_handlers_keep_length.
Qed.

Lemma unknown_address_patch_is_dropped_witness :
  tokens_updated_item patchB storeA = (Ret (), storeA).
Proof.
  apply (unknown_address_patch_is_dropped storeA patchB).
  repeat constructor.
Defined.

(** ** Price and volume ticks: what an assignment leaves alone *)

Lemma drop_props_set_prop (ks : list string) (k : string) (x t : value) :
  k ∈ ks → drop_props ks (set_prop k x t) = drop_props ks t.
Proof.
  intros Hk. destruct t; simpl; try done; f_equal;
    apply map_filter_insert_not; intros y Hy; by apply Hy.
Qed.

Lemma get_drop_props (ks : list string) (k : string) (t : value) :
  k ∉ ks → get (drop_props ks t) k = get t k.
Proof.
  intros Hk.
  assert (∀ m : gmap string value,
            filter (λ kv, kv.1 ∉ ks) m !! k = m !! k) as Hm.
  { intros m. apply option_eq. intros y. rewrite map_lookup_filter_Some.
    simpl. tauto. }
  destruct t; simpl; try done; by rewrite Hm.
Qed.

Lemma same_address_drop_props (ks : list string) (x t t' : value) :
  "token_address" ∉ ks → drop_props ks t' = drop_props ks t →
  same_address x t' = same_address x t.
Proof.
  intros Hk Heq. unfold same_address.
  by rewrite <- (get_drop_props ks _ t'), <- (get_drop_props ks _ t), Heq.
Qed.

Lemma get_total (x : value) (k k' : string) (a : value) :
  get x k = Ret a → ∃ b, get x k' = Ret b.
Proof. destruct x; simpl; try done; eauto. Qed.

Lemma alter_lookup_insert (g : value → value) (l : list value) (i : nat) (t : value) :
  l !! i = Some t → alter g i l = <[i := g t]> l.
Proof.
  revert i. induction l as [|y l IH]; intros [|i] Hi; simpl in *; try done.
  - by injection Hi as ->.
  - f_equal. by apply IH.
Qed.

Lemma price_update_item_tick : tick_callback price_fields price_update_item.
Proof.
  split. intros x s. unfold price_update_item, assign_at. unfold_M.
  destruct (findIndex _ _) as [[i|]|] eqn:Hf; simpl; [|by left..].
  destruct (truthy _); simpl; [|by left].
  destruct (get x "new_price") as [p|]; simpl; [|by left].
  right. exists i.
  destruct (get x "change_percent") as [c|]; simpl.
  - exists (set_prop "price_24hr_change" c ∘ set_prop "price_sol" p).
    split; [done|]. split.
    + rewrite <- list_alter_alter_eq. by destruct (get x "token_address").
    + intros t. simpl.
      by rewrite !drop_props_set_prop by (unfold price_fields; set_solver).
  - exists (set_prop "price_sol" p). split; [done|]. split; [done|].
    intros t. apply drop_props_set_prop. set_solver.
Qed.

Lemma volume_spike_item_tick : tick_callback volume_fields volume_spike_item.
Proof.
  split. intros x s. unfold volume_spike_item, assign_at. unfold_M.
  destruct (findIndex _ _) as [[i|]|] eqn:Hf; simpl; [|by left..].
  destruct (truthy _); simpl; [|by left].
  destruct (get x "new_volume") as [v|]; simpl; [|by left].
  right. exists i, (set_prop "volume_sol" v). split; [done|]. split.
  - by destruct (get x "token_address").
  - intros t. apply drop_props_set_prop. set_solver.
Qed.

Lemma forEach_inv_in (I : state → Prop) (f : value → M unit) (l : list value) (s : state) :
  (∀ x s0, x ∈ l → I s0 → I (f x s0).2) → I s → I (forEach f l s).2.
Proof.
  revert s. induction l as [|x l IH]; intros s Hf Hs; simpl; [done|].
  unfold bind. pose proof (Hf x s ltac:(left) Hs) as Hx.
  destruct (f x s) as [[[]|] s1]; simpl in *; [|done].
  apply IH; [|done]. intros y s0 Hy. apply Hf. by right.
Qed.

Section TickLoop.
Variable ks : list string.
Variable f : value → M unit.
Hypothesis Hf : tick_callback ks f.
Hypothesis Hks : "token_address" ∉ ks.

Lemma tick_loop_frame (items : list value) (s : state) :
  tick_frame ks items s (forEach f items s).2.
Proof.
  apply (forEach_inv_in (tick_frame ks items s)).
  - intros x s0 Hx (Hs0 & Hdrop & Hsame).
    destruct (tc_step ks f Hf x s0) as [->|(i & g & Hfind & -> & Hg)]; [done|].
    unfold tick_frame. cbn [allTokens with_allTokens].
    split; [by rewrite Hs0|]. split.
    + rewrite <- Hdrop. rewrite (list_fmap_alter _ g id).
      * by apply list_alter_id.
      * apply Forall_true. intros t. apply Hg.
    + intros j t Hj Hnot. rewrite list_lookup_alter_ne; [by apply Hsame|].
      intros <-. apply findIndex_Some in Hfind as (t' & Hi & Ht' & _).
      assert (drop_props ks t' = drop_props ks t) as Heq.
      { apply (f_equal (λ l, l !! i)) in Hdrop.
        rewrite !list_lookup_fmap, Hi, Hj in Hdrop. by injection Hdrop. }
      rewrite Forall_forall in Hnot. apply (Hnot x Hx).
      by rewrite <- (same_address_drop_props ks x t t' Hks Heq).
  - repeat split; [by rewrite with_allTokens_same|done].
Qed.
End TickLoop.

Lemma address_not_price_field : "token_address" ∉ price_fields.
Proof. apply (bool_decide_unpack _). by vm_compute. Qed.

Lemma address_not_volume_field : "token_address" ∉ volume_fields.
Proof. apply (bool_decide_unpack _). by vm_compute. Qed.

Lemma price_update_item_found (item : value) (s : state) (i : nat) (token : value) :
  findIndex (same_address item) (allTokens s) = Ret (Some i) →
  allTokens s !! i = Some token → truthy token = true →
  ∃ p c, get item "new_price" = Ret p ∧ get item "change_percent" = Ret c ∧
    price_update_item item s =
    (Ret (), with_allTokens
               (<[i := set_prop "price_24hr_change" c (set_prop "price_sol" p token)]>
                  (allTokens s)) s).
Proof.
  intros Hf Hi Ht. destruct (same_address_found _ _ _ Hf) as [a Ha].
  destruct (get_total item _ "new_price" a Ha) as [p Hp].
  destruct (get_total item _ "change_percent" a Ha) as [c Hc].
  exists p, c. repeat split; [done..|].
  unfold price_update_item, assign_at. unfold_M.
  rewrite Hf, Hi. simpl. rewrite Ht, Hp. simpl. rewrite Hc. simpl. rewrite Ha.
  simpl. rewrite list_alter_alter_eq. by rewrite (alter_lookup_insert _ _ _ token).
Qed.

Lemma volume_spike_item_found (item : value) (s : state) (i : nat) (token : value) :
  findIndex (same_address item) (allTokens s) = Ret (Some i) →
  allTokens s !! i = Some token → truthy token = true →
  ∃ v, get item "new_volume" = Ret v ∧
    volume_spike_item item s =
    (Ret (), with_allTokens (<[i := set_prop "volume_sol" v token]> (allTokens s)) s).
Proof.
  intros Hf Hi Ht. destruct (same_address_found _ _ _ Hf) as [a Ha].
  destruct (get_total item _ "new_volume" a Ha) as [v Hv].
  exists v. split; [done|].
  unfold volume_spike_item, assign_at. unfold_M.
  rewrite Hf, Hi. simpl. rewrite Ht, Hv. simpl. rewrite Ha.
  simpl. by rewrite (alter_lookup_insert _ _ _ token).
Qed.

(** C7. After a price tick every record of the collection is what it was
    once [price_sol] and [price_24hr_change] are left out of the comparison,
    and after a volume tick once [volume_sol] is left out; a record whose
    address no item of the event matches is what it was; and on a matching
    truthy record the callback assigns exactly the new price and the change
    percent, respectively the new volume, of the item. *)
Theorem ticks_change_only_their_fields (s : state) (ev : value) :
  (drop_props price_fields <$> allTokens (price_update ev s).2 =
     drop_props price_fields <$> allTokens s ∧
   drop_props volume_fields <$> allTokens (volume_spike ev s).2 =
     drop_props volume_fields <$> allTokens s) ∧
  (∀ (d : value) (j : nat) (t : value),
     get ev "data" = Ret d → allTokens s !! j = Some t →
     Forall (λ x, same_address x t ≠ Ret true) (as_batch d) →
     allTokens (price_update ev s).2 !! j = Some t ∧
     allTokens (volume_spike ev s).2 !! j = Some t) ∧
  (∀ (item : value) (i : nat) (token : value),
     findIndex (same_address item) (allTokens s) = Ret (Some i) →
     allTokens s !! i = Some token → truthy token = true →
     ∃ p c v,
       get item "new_price" = Ret p ∧ get item "change_percent" = Ret c ∧
       get item "new_volume" = Ret v ∧
       price_update_item item s =
         (Ret (), with_allTokens
                    (<[i := set_prop "price_24hr_change" c (set_prop "price_sol" p token)]>
                       (allTokens s)) s) ∧
       volume_spike_item item s =
         (Ret (), with_allTokens (<[i := set_prop "volume_sol" v token]> (allTokens s)) s)).
Proof.
  pose proof address_not_price_field as Hp.
  pose proof address_not_volume_field as Hv.
  rewrite price_update_effect, volume_spike_effect.
  destruct (get ev "data") as [d|] eqn:Hd.
  - destruct (tick_loop_frame _ _ price_update_item_tick Hp (as_batch d) (counted s))
      as (_ & Hp1 & Hp2).
    destruct (tick_loop_frame _ _ volume_spike_item_tick Hv (as_batch d) (counted s))
      as (_ & Hv1 & Hv2).
    split; [done|]. split.
    + intros d' j t [= <-] Hj Hnot. split; [by apply Hp2|by apply Hv2].
    + intros item i token Hf Hi Ht.
      destruct (price_update_item_found item s i token Hf Hi Ht) as (p & c & ? & ? & ?).
      destruct (volume_spike_item_found item s i token Hf Hi Ht) as (v & ? & ?).
      by exists p, c, v.
  - split; [done|]. split; [done|].
    intros item i token Hf Hi Ht.
    destruct (price_update_item_found item s i token Hf Hi Ht) as (p & c & ? & ? & ?).
    destruct (volume_spike_item_found item s i token Hf Hi Ht) as (v & ? & ?).
    by exists p, c, v.
Qed.

(** A price tick and a volume tick on the stored record of address ["A"]. *)
Example price_update_tickA :
  allTokens (price_update (with_data tickA) storeA).2 =
  [obj [("token_address", VStr "A"); ("price_sol", VNum 3); ("volume_sol", VNum 5);
        ("price_24hr_change", VNum 50)]].
Proof. vm_compute. reflexivity. Qed.

Example volume_spike_tickA :
  allTokens (volume_spike (with_data (arr [tickA])) storeA).2 =
  [obj [("token_address", VStr "A"); ("price_sol", VNum 1); ("volume_sol", VNum 8)]].
Proof. vm_compute. reflexivity. Qed.

(** ** Malformed items in a batch *)

Lemma has_address_spec (t : value) :
  has_address t = true ↔ ∃ a, get t "token_address" = Ret a ∧ a ≠ VUndef.
Proof.
  unfold has_address. destruct (get t "token_address") as [a|].
  - destruct a; split; try done; try (intros _; eexists; by split);
      by intros (a & [= <-] & Ha).
  - split; [done|]. by intros (a & Ha & _).
Qed.

Lemma strict_eq_undef_r (a : value) : strict_eq a VUndef = true → a = VUndef.
Proof. by destruct a. Qed.

(** An item without an address matches no record that has one. *)
Lemma missing_address_unmatched (l : list value) (x : value) :
  get x "token_address" = Ret VUndef →
  Forall (λ t, has_address t = true) l →
  findIndex (same_address x) l = Ret None.
Proof.
  intros Hx Hl. apply findIndex_None. eapply Forall_impl; [exact Hl|].
  intros t (a & Ha & Hne)%has_address_spec. unfold same_address.
  rewrite Ha, Hx. simpl. f_equal.
  destruct (strict_eq a VUndef) eqn:Heq; [|done].
  by apply strict_eq_undef_r in Heq.
Qed.

Lemma get_defined_own_props (x : value) (k : string) (b : value) :
  get x k = Ret b → b ≠ VUndef → own_props x !! k = Some b.
Proof.
  destruct x; simpl; try (by intros [= <-]).
  - intros [= <-] Hb. destruct (extra !! k) as [y|] eqn:Hy; [|done].
    by apply lookup_union_Some_l.
  - intros [= <-] Hb. by destruct (props !! k).
Qed.

Lemma tokens_updated_item_keeps_addresses (x : value) (s : state) :
  Forall (λ t, has_address t = true) (allTokens s) →
  Forall (λ t, has_address t = true) (allTokens (tokens_updated_item x s).2).
Proof.
  intros Hall.
  destruct (findIndex (same_address x) (allTokens s)) as [[i|]|] eqn:Hf.
  - rewrite (tokens_updated_item_found x s i Hf). simpl.
    apply Forall_insert; [done|].
    apply findIndex_Some in Hf as (t & Hi & Ht & _). rewrite Hi. simpl.
    rewrite Forall_forall in Hall.
    destruct (proj1 (has_address_spec t) (Hall t ltac:(by eapply list_elem_of_lookup_2)))
      as (a & Ha & Hne).
    unfold same_address in Ht. rewrite Ha in Ht. simpl in Ht.
    destruct (get x "token_address") as [b|] eqn:Hb; [|done]. simpl in Ht.
    injection Ht as Ht.
    assert (b ≠ VUndef) as Hbne.
    { intros ->. by apply strict_eq_undef_r in Ht. }
    apply has_address_spec. exists b. split; [|done].
    unfold spread, get. rewrite lookup_union.
    by rewrite (get_defined_own_props x _ b Hb Hbne), union_Some_l.
  - by rewrite (tokens_updated_item_not_found x s Hf).
  - unfold tokens_updated_item. unfold_M. by rewrite Hf.
Qed.

Lemma tick_callback_keeps_addresses (ks : list string) (f : value → M unit)
    (x : value) (s : state) :
  tick_callback ks f → "token_address" ∉ ks →
  Forall (λ t, has_address t = true) (allTokens s) →
  Forall (λ t, has_address t = true) (allTokens (f x s).2).
Proof.
  intros Hf Hks Hall.
  destruct (tc_step ks f Hf x s) as [->|(i & g & _ & -> & Hg)]; [done|]. simpl.
  apply Forall_alter; [done|]. intros t _. unfold has_address.
  by rewrite <- (get_drop_props ks _ (g t)), Hg, get_drop_props.
Qed.

(** A [null] or [undefined] item makes the callback of the search throw as
    soon as there is a record to compare it with. *)
Lemma nullish_item_throws (x : value) (l : list value) :
  is_nullish x = true → l ≠ [] → findIndex (same_address x) l = Throw.
Proof.
  intros Hx Hl. destruct l as [|t l]; [done|]. simpl. unfold same_address.
  destruct (get t "token_address"); simpl; [|done].
  by destruct x.
Qed.

(** The three batch handlers on an event [{ data: [...] }]. *)
Lemma tokens_updated_batch (items : list value) (s : state) :
  tokens_updated (with_data (arr items)) s =
  bind (forEach tokens_updated_item items) (λ _, applyClientFilters) (counted s).
Proof.
  unfold tokens_updated, incrUpdateCount.
  unfold bind at 1. unfold modify at 1. unfold bind at 1. unfold lift at 1.
  by rewrite get_with_data.
Qed.

Lemma price_update_batch (items : list value) (s : state) :
  price_update (with_data (arr items)) s =
  bind (forEach price_update_item items) (λ _, applyClientFilters) (counted s).
Proof.
  unfold price_update, incrUpdateCount.
  unfold bind at 1. unfold modify at 1. unfold bind at 1. unfold lift at 1.
  by rewrite get_with_data.
Qed.

Lemma volume_spike_batch (items : list value) (s : state) :
  volume_spike (with_data (arr items)) s =
  bind (forEach volume_spike_item items) (λ _, applyClientFilters) (counted s).
Proof.
  unfold volume_spike, incrUpdateCount.
  unfold bind at 1. unfold modify at 1. unfold bind at 1. unfold lift at 1.
  by rewrite get_with_data.
Qed.

Section SkipLoop.
Variable f : value → M unit.
Hypothesis Hf : patch_callback f.
Hypothesis Hkeep : ∀ x s,
  Forall (λ t, has_address t = true) (allTokens s) →
  Forall (λ t, has_address t = true) (allTokens (f x s).2).

(** Over records that all have an address, an item without one can be
    taken out of the batch: the loop ends in the same way and state. *)
Lemma skip_missing_address (pre post : list value) (x : value) (s : state) :
  Forall (λ t, has_address t = true) (allTokens s) →
  get x "token_address" = Ret VUndef →
  forEach f (pre ++ x :: post) s = forEach f (pre ++ post) s.
Proof.
  intros Hall Hx.
  destruct (forEach f pre s) as [[[]|] s1] eqn:Hpre.
  - apply (patch_loop_drop f Hf pre post x s s1 Hpre).
    apply missing_address_unmatched; [done|].
    replace s1 with (forEach f pre s).2 by (by rewrite Hpre).
    by apply (forEach_inv (λ s', Forall (λ t, has_address t = true) (allTokens s'))).
  - by rewrite !forEach_app, Hpre.
Qed.

(** A [null] or [undefined] item ends the loop with an exception when it
    is reached, if there is any record at all. *)
Lemma nullish_item_aborts (pre post : list value) (x : value) (s s1 : state) :
  (∀ s0, findIndex (same_address x) (allTokens s0) = Throw → f x s0 = (Throw, s0)) →
  is_nullish x = true → allTokens s1 ≠ [] →
  forEach f pre s = (Ret (), s1) →
  forEach f (pre ++ x :: post) s = (Throw, s1).
Proof.
  intros Hthrow Hx Hne Hpre. rewrite forEach_app, Hpre. simpl. unfold bind.
  by rewrite (Hthrow s1 (nullish_item_throws x _ Hx Hne)).
Qed.
End SkipLoop.

(** C4, as the code has it. Over a collection whose records all have an
    address, a malformed item that is neither [null] nor [undefined] (an
    object without [token_address], a number, a string, ...) is skipped on
    its own: each batch handler ends exactly as it does on the batch without
    that item.  A [null] or [undefined] item, once reached with a record in
    the collection, ends the loop with an exception: the items before it
    stay applied, those after it are not processed. *)
Theorem malformed_item_skipped_unless_nullish
    (s : state) (pre post : list value) (x : value) :
  Forall (λ t, has_address t = true) (allTokens s) →
  get x "token_address" = Ret VUndef →
  (tokens_updated (with_data (arr (pre ++ x :: post))) s =
     tokens_updated (with_data (arr (pre ++ post))) s ∧
   price_update (with_data (arr (pre ++ x :: post))) s =
     price_update (with_data (arr (pre ++ post))) s ∧
   volume_spike (with_data (arr (pre ++ x :: post))) s =
     volume_spike (with_data (arr (pre ++ post))) s) ∧
  (∀ (bad : value) (s0 s1 : state),
     is_nullish bad = true → allTokens s1 ≠ [] →
     (forEach tokens_updated_item pre s0 = (Ret (), s1) →
      forEach tokens_updated_item (pre ++ bad :: post) s0 = (Throw, s1)) ∧
     (forEach price_update_item pre s0 = (Ret (), s1) →
      forEach price_update_item (pre ++ bad :: post) s0 = (Throw, s1)) ∧
     (forEach volume_spike_item pre s0 = (Ret (), s1) →
      forEach volume_spike_item (pre ++ bad :: post) s0 = (Throw, s1))).
Proof.
  intros Hall Hx. split.
  - rewrite !tokens_updated_batch, !price_update_batch, !volume_spike_batch.
    unfold bind.
    rewrite (skip_missing_address _ tokens_updated_item_callback
               tokens_updated_item_keeps_addresses pre post x (counted s)) by done.
    rewrite (skip_missing_address _ price_update_item_callback
               (λ y s0, tick_callback_keeps_addresses _ _ y s0 price_update_item_tick
                          address_not_price_field) pre post x (counted s)) by done.
    by rewrite (skip_missing_address _ volume_spike_item_callback
               (λ y s0, tick_callback_keeps_addresses _ _ y s0 volume_spike_item_tick
                          address_not_volume_field) pre post x (counted s)) by done.
  - intros bad s0 s1 Hbad Hne. repeat split; intros Hpre.
    + apply (nullish_item_aborts tokens_updated_item pre post bad s0 s1); try done.
      intros s2 Hthrow. unfold tokens_updated_item. unfold_M. by rewrite Hthrow.
    + apply (nullish_item_aborts price_update_item pre post bad s0 s1); try done.
      intros s2 Hthrow. unfold price_update_item. unfold_M. by rewrite Hthrow.
    + apply (nullish_item_aborts volume_spike_item pre post bad s0 s1); try done.
      intros s2 Hthrow. unfold volume_spike_item. unfold_M. by rewrite Hthrow.
Qed.

Lemma malformed_item_skipped_unless_nullish_witness :
  tokens_updated (with_data (arr ([] ++ no_address_item :: [patchA]))) storeA =
  tokens_updated (with_data (arr ([] ++ [patchA]))) storeA.
Proof.
  apply (malformed_item_skipped_unless_nullish storeA [] [patchA] no_address_item).
  - repeat constructor.
  - reflexivity.
Defined.

(** C4 as the specification words it fails: with the record of address
    ["A"] stored at price 1, the batch [[null, patchA]] throws at its first
    item and leaves the price at 1, while [patchA] alone sets it to 2. *)
Lemma null_item_aborts_the_batch :
  tokens_updated (with_data (arr [VNull; patchA])) storeA = (Throw, counted storeA) ∧
  (λ t, get t "price_sol") <$> allTokens (counted storeA) = [Ret (VNum 1)] ∧
  (λ t, get t "price_sol") <$>
    allTokens (tokens_updated (with_data (arr [patchA])) storeA).2 = [Ret (VNum 2)].
Proof. vm_compute. repeat split. Qed.

(** ** Snapshots: [initial_data] and the bulk fetch *)

Lemma slice_nil {A} (start end_ : Z) : slice (@nil A) start end_ = [].
Proof. unfold slice. by rewrite drop_nil, take_nil. Qed.

Lemma applyClientFilters_empty (s : state) :
  allTokens s = [] → applyClientFilters s = (Ret (), with_filteredTokens [] s).
Proof.
  intros Hs. unfold applyClientFilters, renderTokens. unfold_M.
  unfold pageTokens. simpl. rewrite Hs, slice_nil. by simpl.
Qed.

(** The handler of the [catch] in [fetchTokens]. *)
Lemma fetch_catch (s : state) :
  bind (modify (with_allTokens [])) (λ _, applyClientFilters) s = (Ret (), emptied s).
Proof. unfold bind, modify. by rewrite applyClientFilters_empty. Qed.

(** The body of the [try], on an array [l]: it writes the two sequences
    only, and when it returns they both hold [l]. *)
Lemma fetch_body (l : list value) (s s' : state) (o : outcome ()) :
  bind (modify (with_allTokens l))
    (λ _, bind (forEach price_change_row l) (λ _, applyClientFilters)) s = (o, s') →
  emptied s' = emptied s ∧
  (o = Ret () → s' = with_filteredTokens l (with_allTokens l s)).
Proof.
  unfold bind, modify.
  assert ((forEach price_change_row l (with_allTokens l s)).2 = with_allTokens l s)
    as Hro.
  { apply forEach_readonly. intros x s0. unfold price_change_row. unfold_M.
    by destruct (get x _). }
  destruct (forEach price_change_row l (with_allTokens l s)) as [[[]|] s1];
    simpl in Hro; subst s1.
  - pose proof (applyClientFilters_state (with_allTokens l s)) as Hs.
    destruct (applyClientFilters (with_allTokens l s)) as [o2 s2].
    simpl in Hs. subst s2. by intros [= <- <-].
  - by intros [= <- <-].
Qed.

(** Every outcome of the bulk fetch: the handler returns, and the two
    sequences are either both empty or both the array picked from the body. *)
Lemma fetchTokens_resume_cases (r : response) (s : state) :
  fetchTokens_resume r s = (Ret (), emptied s) ∨
  ∃ data l ex, r = FetchOk data ∧ fetched_tokens data = Ret (VArr l ex) ∧
    fetchTokens_resume r s = (Ret (), with_filteredTokens l (with_allTokens l s)).
Proof.
  assert (∀ data, fetched_tokens data = Throw →
            fetchTokens_resume (FetchOk data) s = (Ret (), emptied s)) as Hthrow.
  { intros data Hv. unfold fetchTokens_resume, try_catch.
    unfold bind at 1. unfold lift at 1. rewrite Hv. apply fetch_catch. }
  assert (∀ data v, fetched_tokens data = Ret v → isArray v = false →
            fetchTokens_resume (FetchOk data) s = (Ret (), emptied s)) as Hnot.
  { intros data v Hv Harr. unfold fetchTokens_resume, try_catch.
    unfold bind at 1. unfold lift at 1. rewrite Hv.
    destruct v; try done; apply fetch_catch. }
  destruct r as [|data]; [left; apply fetch_catch|].
  destruct (fetched_tokens data) as [v|] eqn:Hv; [|left; by apply Hthrow].
  destruct (isArray v) eqn:Harr; [|left; by apply (Hnot data v)].
  destruct v as [| | | | |l ex|]; try done.
  destruct (bind (modify (with_allTokens l))
              (λ _, bind (forEach price_change_row l) (λ _, applyClientFilters)) s)
    as [o s1] eqn:Hm.
  destruct (fetch_body l s s1 o Hm) as [Hempty Hret].
  assert (fetchTokens_resume (FetchOk data) s =
          match o with
          | Ret a => (Ret a, s1)
          | Throw => bind (modify (with_allTokens [])) (λ _, applyClientFilters) s1
          end) as ->.
  { unfold fetchTokens_resume, try_catch.
    unfold bind at 1. unfold lift at 1. by rewrite Hv, Hm. }
  destruct o as [[]|].
  - right. exists data, l, ex. by rewrite Hret.
  - left. by rewrite fetch_catch, Hempty.
Qed.

(** C5, as the code has it. A pushed snapshot whose [data] is falsy or not
    an array is ignored, and one whose event is [null] or [undefined] throws:
    either way the state, and with it the collection, stays as it was.  A
    failed bulk fetch, and a bulk fetch whose body gives no array of tokens
    (or an empty one), leaves both sequences empty. *)
Theorem malformed_snapshot_ignored_failed_fetch_empties (s : state) :
  (∀ ev d : value,
     get ev "data" = Ret d → truthy d && isArray d = false →
     initial_data ev s = (Ret (), s)) ∧
  (∀ ev : value, get ev "data" = Throw → initial_data ev s = (Throw, s)) ∧
  fetchTokens_resume FetchFailed s = (Ret (), emptied s) ∧
  (∀ data : value,
     (∀ l ex, fetched_tokens data = Ret (VArr l ex) → l = []) →
     fetchTokens_resume (FetchOk data) s = (Ret (), emptied s)).
Proof.
  repeat split.
  - intros ev d Hd Hg. unfold initial_data. unfold_M. by rewrite Hd, Hg.
  - intros ev Hd. unfold initial_data. unfold_M. by rewrite Hd.
  - by destruct (fetchTokens_resume_cases FetchFailed s) as [?|(? & ? & ? & ? & _)].
  - intros data Hdata.
    destruct (fetchTokens_resume_cases (FetchOk data) s)
      as [?|(data' & l & ex & [= <-] & Hfetch & ->)]; [done|].
    by rewrite (Hdata l ex Hfetch).
Qed.

(** C5 as the specification words it fails for the pushed snapshot: with one
    record stored, an [initial_data] event whose [data] is [null], or is a
    string, leaves that record in the collection. *)
Lemma malformed_snapshot_keeps_collection :
  initial_data (with_data VNull) storeA = (Ret (), storeA) ∧
  initial_data (with_data (VStr "oops")) storeA = (Ret (), storeA) ∧
  length (allTokens (initial_data (with_data VNull) storeA).2) = 1%nat.
Proof. vm_compute. repeat split. Qed.

(** The bulk fetch on bodies of the shapes the script accepts or rejects. *)
Example fetch_nested_envelope :
  allTokens (fetchTokens_resume (FetchOk (with_data (with_data (arr [tokenA])))) initial_state).2
  = [tokenA].
Proof. vm_compute. reflexivity. Qed.

Example fetch_flat_envelope :
  allTokens (fetchTokens_resume (FetchOk (with_data (arr [tokenA]))) initial_state).2
  = [tokenA].
Proof. vm_compute. reflexivity. Qed.

Example fetch_not_a_sequence :
  fetchTokens_resume (FetchOk (with_data (VStr "oops"))) storeA = (Ret (), emptied storeA).
Proof. vm_compute. reflexivity. Qed.

(** ** Pagination *)

(** The ceiling of [n / 25] in integer arithmetic. *)
Lemma totalPages_div (s : state) :
  totalPages s = (- (- Z.of_nat (length (filteredTokens s)) / 25))%Z.
Proof.
  unfold totalPages, tokensPerPage, Qceiling, Qfloor. simpl.
  by rewrite Z.mul_1_r.
Qed.

Lemma totalPages_ceiling (s : state) :
  (25 * (totalPages s - 1) < Z.of_nat (length (filteredTokens s)) ≤ 25 * totalPages s)%Z.
Proof.
  rewrite totalPages_div.
  pose proof (Z.div_mod (- Z.of_nat (length (filteredTokens s))) 25 ltac:(lia)).
  pose proof (Z.mod_pos_bound (- Z.of_nat (length (filteredTokens s))) 25 ltac:(lia)).
  lia.
Qed.

(** From a start inside or past the sequence, [slice] is [drop] then [take]. *)
Lemma slice_from {A} (l : list A) (start size : Z) :
  (0 ≤ start)%Z → (0 < size)%Z →
  slice l start (start + size) = take (Z.to_nat size) (drop (Z.to_nat start) l).
Proof.
  intros Hstart Hsize. unfold slice.
  destruct (Z.ltb_spec start 0) as [?|_]; [lia|].
  destruct (Z.ltb_spec (start + size) 0) as [?|_]; [lia|].
  destruct (Z.le_gt_cases (Z.of_nat (length l)) start) as [Hpast|Hin].
  - rewrite !(drop_ge l) by lia. by rewrite !take_nil.
  - rewrite (Z.min_l start) by lia.
    destruct (Z.le_gt_cases (start + size) (Z.of_nat (length l))) as [Hfull|Hpart].
    + rewrite Z.min_l by lia. f_equal. lia.
    + rewrite Z.min_r by lia.
      rewrite !take_ge; [done|rewrite length_drop; lia..].
Qed.

Lemma then_applyClientFilters_currentPage (m : M unit) (s : state) :
  currentPage (bind m (λ _, applyClientFilters) s).2 = currentPage (m s).2.
Proof.
  unfold bind. destruct (m s) as [[[]|] s1]; simpl; [|done].
  by rewrite applyClientFilters_state.
Qed.

Lemma patch_loop_currentPage (f : value → M unit) (items : list value) (s : state) :
  patch_callback f → currentPage (forEach f items s).2 = currentPage s.
Proof.
  intros Hf. by destruct (patch_loop_frame f Hf items s) as (l & -> & _).
Qed.

(** The page number starts at 1 and no handler takes it below 1. *)
Lemma currentPage_from_1 (es : list event) :
  (1 ≤ currentPage (run es initial_state))%Z.
Proof.
  assert (∀ e s, (1 ≤ currentPage s)%Z → (1 ≤ currentPage (step s e))%Z) as Hstep.
  { intros e s Hs. unfold step.
    destruct e as [v|v|v|v|v|r| | |]; unfold handle.
    - unfold initial_data. unfold bind at 1. unfold lift at 1.
      destruct (get v "data") as [d|]; [|done].
      destruct (truthy d && isArray d); [|done].
      by rewrite then_applyClientFilters_currentPage.
    - unfold tokens_updated, incrUpdateCount.
      unfold bind at 1. unfold modify at 1. unfold bind at 1. unfold lift at 1.
      destruct (get v "data") as [d|]; [|done].
      destruct (truthy d && isArray d); [|done].
      rewrite then_applyClientFilters_currentPage.
      by rewrite (patch_loop_currentPage _ _ _ tokens_updated_item_callback).
    - unfold price_update, incrUpdateCount.
      unfold bind at 1. unfold modify at 1. unfold bind at 1. unfold lift at 1.
      destruct (get v "data") as [d|]; [|done].
      rewrite then_applyClientFilters_currentPage.
      by rewrite (patch_loop_currentPage _ _ _ price_update_item_callback).
    - unfold volume_spike, incrUpdateCount.
      unfold bind at 1. unfold modify at 1. unfold bind at 1. unfold lift at 1.
      destruct (get v "data") as [d|]; [|done].
      rewrite then_applyClientFilters_currentPage.
      by rewrite (patch_loop_currentPage _ _ _ volume_spike_item_callback).
    - destruct (get v "data") as [d|] eqn:Hd.
      + destruct (truthy d) eqn:Ht.
        * by rewrite (new_token_inserts v d).
        * by rewrite (new_token_ignores v d).
      + unfold new_token, incrUpdateCount. unfold_M. by rewrite Hd.
    - by destruct (fetchTokens_resume_cases r s) as [->|(? & ? & ? & _ & _ & ->)].
    - done.
    - unfold prevPage. unfold bind at 1. unfold gets at 1.
      destruct (Z.ltb_spec 1 (currentPage s)); [|done].
      unfold bind, modify. rewrite (surjective_pairing (renderTokens _)).
      rewrite renderTokens_state.
      destruct (renderTokens _).1 as [[]|]; simpl; lia.
    - unfold nextPage. unfold bind at 1. unfold gets at 1.
      unfold bind at 1. unfold gets at 1.
      destruct (Z.ltb_spec (currentPage s) (totalPages s)); [|done].
      unfold bind, modify. rewrite (surjective_pairing (renderTokens _)).
      rewrite renderTokens_state.
      destruct (renderTokens _).1 as [[]|]; simpl; lia. }
  induction es as [|e es IH] using rev_ind; [done|].
  unfold run. rewrite foldl_snoc. by apply Hstep.
Qed.

(** C6. The number of pages is the ceiling of the length of the working
    sequence over 25: the least integer whose 25-fold reaches the length.
    For a page number from 1 on, the rendered page is the slice from
    [(p-1)*25] up to [p*25]: its entry [i] is entry [(p-1)*25 + i] of the
    working sequence for [i < 25], and it has no other entry.  With 26
    records there are 2 pages, page 1 has 25 records and page 2 has 1, and
    page 3 is empty.  (The page number of the script is never below 1, see
    [currentPage_from_1].) *)
Theorem pagination_is_ceiling_and_slice (s : state) :
  (1 ≤ currentPage s)%Z →
  let count := Z.of_nat (length (filteredTokens s)) in
  let first := Z.to_nat ((currentPage s - 1) * 25) in
  (25 * (totalPages s - 1) < count ≤ 25 * totalPages s)%Z ∧
  (∀ n : Z, (count ≤ 25 * n)%Z → (totalPages s ≤ n)%Z) ∧
  pageTokens s = take 25 (drop first (filteredTokens s)) ∧
  (∀ i : nat,
     pageTokens s !! i =
     if decide (i < 25)%nat then filteredTokens s !! (first + i)%nat else None) ∧
  (length (filteredTokens s) = 26%nat →
     totalPages s = 2%Z ∧
     (currentPage s = 1%Z → length (pageTokens s) = 25%nat) ∧
     (currentPage s = 2%Z → length (pageTokens s) = 1%nat) ∧
     (currentPage s = 3%Z → pageTokens s = [])).
Proof.
  intros Hpage count first.
  pose proof (totalPages_ceiling s) as Hceil.
  assert (pageTokens s = take 25 (drop first (filteredTokens s))) as Hslice.
  { unfold pageTokens, tokensPerPage. rewrite slice_from by lia. done. }
  split; [done|]. split; [intros n Hn; fold count in Hceil; lia|].
  split; [done|]. split.
  - intros i. rewrite Hslice. case_decide.
    + by rewrite lookup_take_lt, lookup_drop by done.
    + apply lookup_take_ge. lia.
  - intros H26. fold count in Hceil. unfold count in Hceil. rewrite H26 in Hceil.
    split; [lia|]. rewrite Hslice. unfold first.
    repeat split; intros ->; simpl.
    + rewrite length_take, length_drop. lia.
    + rewrite length_take, length_drop. lia.
    + apply length_zero_iff_nil. rewrite length_take, length_drop. lia.
Qed.

Lemma pagination_is_ceiling_and_slice_witness :
  totalPages store26 = 2%Z ∧ length (pageTokens store26) = 1%nat.
Proof.
  destruct (pagination_is_ceiling_and_slice store26) as (_ & _ & _ & _ & H26).
  - vm_compute. discriminate.
  - destruct (H26 eq_refl) as (Htotal & _ & Hpage2 & _).
    split; [exact Htotal|exact (Hpage2 eq_refl)].
Defined.

(** ** The update counter *)

Lemma patch_loop_updateCount (f : value → M unit) (items : list value) (s : state) :
  patch_callback f → updateCount (forEach f items s).2 = updateCount s.
Proof.
  intros Hf. by destruct (patch_loop_frame f Hf items s) as (l & -> & _).
Qed.

(** Each of the four update handlers moves the counter one step, whatever
    the event holds and however the handler ends. *)
Lemma update_handler_counts (e : event) (s : state) :
  is_update e = true → updateCount (step s e) = num_succ (updateCount s).
Proof.
  destruct e as [v|v|v|v|v|r| | |]; try done; intros _; unfold step, handle.
  - unfold tokens_updated, incrUpdateCount.
    unfold bind at 1. unfold modify at 1. unfold bind at 1. unfold lift at 1.
    destruct (get v "data") as [d|]; [|done].
    destruct (truthy d && isArray d); [|done].
    rewrite then_applyClientFilters_updateCount.
    by rewrite (patch_loop_updateCount _ _ _ tokens_updated_item_callback).
  - unfold price_update, incrUpdateCount.
    unfold bind at 1. unfold modify at 1. unfold bind at 1. unfold lift at 1.
    destruct (get v "data") as [d|]; [|done].
    rewrite then_applyClientFilters_updateCount.
    by rewrite (patch_loop_updateCount _ _ _ price_update_item_callback).
  - unfold volume_spike, incrUpdateCount.
    unfold bind at 1. unfold modify at 1. unfold bind at 1. unfold lift at 1.
    destruct (get v "data") as [d|]; [|done].
    rewrite then_applyClientFilters_updateCount.
    by rewrite (patch_loop_updateCount _ _ _ volume_spike_item_callback).
  - destruct (get v "data") as [d|] eqn:Hd.
    + destruct (truthy d) eqn:Ht.
      * by rewrite (new_token_inserts v d).
      * by rewrite (new_token_ignores v d).
    + unfold new_token, incrUpdateCount. unfold_M. by rewrite Hd.
Qed.

Lemma num_succ_exact (n : Z) : (n < 2 ^ 53)%Z → num_succ n = (n + 1)%Z.
Proof.
  intros Hn. unfold num_succ. by destruct (Z.ltb_spec n (2 ^ 53)); [|lia].
Qed.

(** C8. After any sequence of update events (bulk patches, price ticks,
    volume ticks, new entities), whatever they carry and whether or not a
    handler throws, the counter is its initial value plus the number of
    events, as long as that sum stays within the integers a number holds
    exactly (up to 2^53). *)
Theorem update_counter_counts_events (s : state) (es : list event) :
  Forall (λ e, is_update e = true) es →
  (updateCount s + Z.of_nat (length es) ≤ 2 ^ 53)%Z →
  updateCount (run es s) = (updateCount s + Z.of_nat (length es))%Z.
Proof.
  intros Hes. revert s. induction Hes as [|e es He _ IH]; intros s Hbound.
  - simpl. lia.
  - change (run (e :: es) s) with (run es (step s e)).
    rewrite length_cons, Nat2Z.inj_succ in Hbound.
    pose proof (update_handler_counts e s He) as Hstep.
    rewrite num_succ_exact in Hstep by lia.
    rewrite IH; rewrite Hstep; [|lia].
    rewrite length_cons, Nat2Z.inj_succ. lia.
Qed.

Lemma update_counter_counts_events_witness :
  updateCount (run four_updates storeA) = 4%Z.
Proof.
  apply (update_counter_counts_events storeA four_updates).
  - repeat constructor.
  - vm_compute. discriminate.
Defined.

(** C9. A [new_token] event whose [data] is absent or falsy returns with
    the two sequences as they were: nothing is inserted, nothing evicted.
    The counter has moved one step, which below 2^53 is an increment by 1. *)
Theorem new_token_without_data_keeps_collection (s : state) (ev d : value) :
  get ev "data" = Ret d → truthy d = false →
  new_token ev s = (Ret (), with_updateCount (num_succ (updateCount s)) s) ∧
  allTokens (new_token ev s).2 = allTokens s ∧
  filteredTokens (new_token ev s).2 = filteredTokens s ∧
  ((updateCount s < 2 ^ 53)%Z →
   updateCount (new_token ev s).2 = (updateCount s + 1)%Z).
Proof.
  intros Hd Ht. rewrite (new_token_ignores ev d s Hd Ht). repeat split.
  intros Hc. simpl. by apply num_succ_exact.
Qed.

Lemma new_token_without_data_keeps_collection_witness :
  allTokens (new_token (obj [("kind", VStr "new_token")]) storeA).2 = allTokens storeA.
Proof.
  apply (new_token_without_data_keeps_collection storeA _ VUndef); reflexivity.
Defined.

(** ** Identity resolution by strict equality *)

(** When the callback throws on no entry and accepts the entry at [j], the
    search returns a position, at or before [j]. *)
Lemma findIndex_first (p : value → outcome bool) (l : list value) (j : nat) (t : value) :
  Forall (λ t', ∃ b, p t' = Ret b) l →
  l !! j = Some t → p t = Ret true →
  ∃ i, (i ≤ j)%nat ∧ findIndex p l = Ret (Some i).
Proof.
  intros Hl. revert j. induction Hl as [|t0 l [b Hb] _ IH]; intros j Hj Ht; [done|].
  simpl. rewrite Hb. destruct b.
  - exists 0%nat. split; [lia|done].
  - destruct j as [|j]; simpl in Hj; [congruence|].
    destruct (IH j Hj Ht) as (i & Hij & ->). exists (S i). split; [lia|done].
Qed.

(** Against an item without an address, the comparison is true exactly for
    the records without an address. *)
Lemma same_address_missing (item t : value) :
  get item "token_address" = Ret VUndef → is_nullish t = false →
  ∃ a, get t "token_address" = Ret a ∧
       same_address item t = Ret (is_undefined a).
Proof.
  intros Hitem Ht. unfold same_address. rewrite Hitem.
  destruct (get t "token_address") as [a|] eqn:Ha; [|by destruct t].
  exists a. split; [done|]. simpl. by destruct a.
Qed.

(** C10. In a collection of records (no [null] or [undefined] entry) one of
    which has no [token_address], a bulk-patch item without [token_address]
    is not dropped: [undefined === undefined] holds, the search resolves the
    item to the first record without an address (the given one, when no
    earlier record lacks an address) and the item is merged into it. *)
Theorem addressless_item_merges_into_addressless_record
    (s : state) (item t : value) (j : nat) :
  Forall (λ t', is_nullish t' = false) (allTokens s) →
  allTokens s !! j = Some t →
  get t "token_address" = Ret VUndef →
  get item "token_address" = Ret VUndef →
  same_address item t = Ret true ∧
  ∃ (i : nat) (stored : value),
    (i ≤ j)%nat ∧
    ((∀ j' t', (j' < j)%nat → allTokens s !! j' = Some t' →
               get t' "token_address" ≠ Ret VUndef) → i = j) ∧
    allTokens s !! i = Some stored ∧
    get stored "token_address" = Ret VUndef ∧
    findIndex (same_address item) (allTokens s) = Ret (Some i) ∧
    tokens_updated_item item s =
      (Ret (), with_allTokens (<[i := spread stored item]> (allTokens s)) s) ∧
    allTokens (tokens_updated (with_data (arr [item])) s).2 =
      <[i := spread stored item]> (allTokens s) ∧
    ∃ merged : gmap string value,
      allTokens (tokens_updated (with_data (arr [item])) s).2 !! i = Some (VObj merged) ∧
      ∀ k, merged !! k = match own_props item !! k with
                         | Some x => Some x
                         | None => own_props stored !! k
                         end.
Proof.
  intros Hrec Hj Ht Hitem.
  assert (same_address item t = Ret true) as Hmatch.
  { unfold same_address. by rewrite Ht, Hitem. }
  split; [done|].
  destruct (findIndex_first (same_address item) (allTokens s) j t) as (i & Hij & Hfind);
    [|done..|].
  { eapply Forall_impl; [exact Hrec|]. intros t' Ht'.
    destruct (same_address_missing item t' Hitem Ht') as (a & _ & ->). eauto. }
  pose proof Hfind as (stored & Hi & Hstored & Hbefore)%findIndex_Some.
  assert (get stored "token_address" = Ret VUndef) as Hundef.
  { rewrite Forall_forall in Hrec.
    destruct (same_address_missing item stored Hitem
                (Hrec stored ltac:(by eapply list_elem_of_lookup_2))) as (a & Ha & Hsame).
    rewrite Hsame in Hstored. injection Hstored as Hdec.
    by destruct a. }
  exists i, stored. split; [done|]. split.
  - intros Hfirst. destruct (decide (i = j)) as [|Hne]; [done|].
    by destruct (Hfirst i stored ltac:(lia) Hi).
  - split; [done|]. split; [done|]. split; [done|].
    pose proof (tokens_updated_item_found item s i Hfind) as Hmerge.
    rewrite Hi in Hmerge. simpl in Hmerge. split; [done|].
    destruct (tokens_updated_merge_step item s i stored Hfind Hi) as [_ Hev].
    split; [exact Hev|].
    exists (own_props item ∪ own_props stored). split; [|intros k; apply spread_lookup].
    rewrite Hev. apply list_lookup_insert_eq. by eapply lookup_lt_Some.
Qed.

Lemma addressless_item_merges_into_addressless_record_witness :
  ∃ merged : gmap string value,
    allTokens (tokens_updated (with_data (arr [nameless_patch])) store_with_nameless).2
      !! 1%nat = Some (VObj merged) ∧
    merged !! "price_sol" = Some (VNum 2) ∧
    merged !! "token_name" = Some (VStr "Nameless") ∧
    merged !! "token_address" = None.
Proof.
  destruct (addressless_item_merges_into_addressless_record
              store_with_nameless nameless_patch nameless_record 1)
    as (_ & i & stored & _ & Hfirst & Hi & _ & _ & _ & _ & merged & Hm & Hk).
  - repeat constructor.
  - reflexivity.
  - reflexivity.
  - reflexivity.
  - assert (i = 1%nat) as ->.
    { apply Hfirst. intros [|j'] t' Hlt Hl; [|lia]. by injection Hl as <-. }
    injection Hi as <-.
    exists merged. split; [exact Hm|]. rewrite !Hk. repeat split; reflexivity.
Defined.

(** The patch without an address lands in the record without an address. *)
Example addressless_patch_lands :
  (λ t, get t "price_sol") <$>
    allTokens (tokens_updated (with_data (arr [nameless_patch])) store_with_nameless).2
  = [Ret (VNum 1); Ret (VNum 2)].
Proof. vm_compute. reflexivity. Qed.

(** * Further properties of the script *)

(** ** Strict equality *)

Lemma float_eqb_refl_r (x y : float) :
  PrimFloat.eqb x y = true → PrimFloat.eqb y y = true.
Proof.
  rewrite !FloatAxioms.eqb_spec. unfold SFeqb.
  destruct (Prim2SF x) as [sx|sx| |sx mx ex], (Prim2SF y) as [sy|sy| |sy my ey];
    simpl; try done;
    destruct sx, sy; try done;
    intros _; by rewrite Z.compare_refl, Pos.compare_cont_refl.
Qed.

(** What compares equal to something compares equal to itself: only [NaN]
    differs from itself, and it compares equal to nothing. *)
Lemma strict_eq_refl_r (a b : value) : strict_eq a b = true → strict_eq b b = true.
Proof.
  destruct a as [| |x|x|x|? ?|?], b as [| |y|y|y|? ?|?]; simpl; try done.
  - intros _. by destruct y.
  - apply float_eqb_refl_r.
  - intros _. apply String.eqb_refl.
Qed.

(** ** Bulk patches: several items for one address *)

Lemma get_spread_address (stored u : value) (k : string) (b : value) :
  get u k = Ret b → b ≠ VUndef → get (spread stored u) k = Ret b.
Proof.
  intros Hb Hne. unfold spread, get. rewrite lookup_union.
  by rewrite (get_defined_own_props u k b Hb Hne), union_Some_l.
Qed.

(** The comparison looks at the item through its address only. *)
Lemma same_address_same_item (u1 u2 t : value) :
  get u2 "token_address" = get u1 "token_address" →
  same_address u2 t = same_address u1 t.
Proof. intros Heq. unfold same_address. by rewrite Heq. Qed.

(** Replacing the entry the search found by one the callback accepts too
    does not move the result of the search. *)
Lemma findIndex_insert_accepted (p q : value → outcome bool) (l : list value)
    (i : nat) (t' : value) :
  findIndex p l = Ret (Some i) → (∀ t, q t = p t) → q t' = Ret true →
  findIndex q (<[i := t']> l) = Ret (Some i).
Proof.
  intros (t & Hi & Ht & Hbefore)%findIndex_Some Hpq Ht'.
  apply findIndex_Some. exists t'. split; [|split; [done|]].
  - apply list_lookup_insert_eq. by eapply lookup_lt_Some.
  - intros j t0 Hj. rewrite list_lookup_insert_ne by lia.
    intros Ht0. rewrite Hpq. by apply (Hbefore j).
Qed.

(** The merged record still answers to the address of the item that was
    merged into it. *)
Lemma same_address_merged (u u' stored : value) (b : value) :
  get u "token_address" = Ret b → get u' "token_address" = Ret b → b ≠ VUndef →
  same_address u stored = Ret true →
  same_address u' (spread stored u) = Ret true.
Proof.
  intros Hb Hb' Hne Hmatch. unfold same_address in *.
  rewrite (get_spread_address stored u _ b Hb Hne), Hb'. simpl.
  destruct (get stored "token_address") as [a|]; [|done].
  rewrite Hb in Hmatch. simpl in Hmatch. injection Hmatch as Hmatch.
  f_equal. by apply (strict_eq_refl_r a b).
Qed.

Lemma own_props_spread (a b : value) :
  own_props (spread a b) = own_props b ∪ own_props a.
Proof. done. Qed.

(** X1. Two items for one address in a single bulk patch are merged in order
    into the same record: a field of the second item wins over the first,
    a field of the first over the stored one, and a field neither has keeps
    its stored value. *)
Theorem tokens_updated_last_write_wins
    (s : state) (u1 u2 stored b : value) (i : nat) :
  findIndex (same_address u1) (allTokens s) = Ret (Some i) →
  allTokens s !! i = Some stored →
  get u1 "token_address" = Ret b → get u2 "token_address" = Ret b →
  b ≠ VUndef →
  ∃ merged : gmap string value,
    allTokens (tokens_updated (with_data (arr [u1; u2])) s).2 =
      <[i := VObj merged]> (allTokens s) ∧
    ∀ k, merged !! k =
         match own_props u2 !! k with
         | Some x => Some x
         | None =>
             match own_props u1 !! k with
             | Some x => Some x
             | None => own_props stored !! k
             end
         end.
Proof.
  intros Hf Hi Hb1 Hb2 Hne.
  exists (own_props u2 ∪ (own_props u1 ∪ own_props stored)). split.
  - rewrite (tokens_updated_allTokens _ (arr [u1; u2])); [|apply get_with_data|done].
    simpl. unfold bind.
    rewrite (tokens_updated_item_found u1 (with_updateCount _ s) i Hf).
    simpl. rewrite Hi. simpl.
    assert (findIndex (same_address u2) (<[i := spread stored u1]> (allTokens s))
            = Ret (Some i)) as Hf2.
    { apply (findIndex_insert_accepted (same_address u1)); [done| |].
      - intros t. apply same_address_same_item. by rewrite Hb1, Hb2.
      - apply (same_address_merged u1 u2 stored b); try done.
        by apply findIndex_Some in Hf as (t & Hi' & Ht & _); simplify_eq. }
    match goal with |- context [tokens_updated_item u2 ?s1] =>
      rewrite (tokens_updated_item_found u2 s1 i Hf2) end.
    simpl. rewrite list_lookup_insert_eq by (by eapply lookup_lt_Some).
    simpl. by rewrite list_insert_insert_eq.
  - intros k. rewrite !lookup_union.
    by destruct (own_props u2 !! k), (own_props u1 !! k), (own_props stored !! k).
Qed.

Lemma tokens_updated_last_write_wins_witness :
  ∃ merged : gmap string value,
    allTokens (tokens_updated (with_data (arr [patchA_volume; patchA])) storeA).2 =
      <[0%nat := VObj merged]> (allTokens storeA) ∧
    ∀ k, merged !! k =
         match own_props patchA !! k with
         | Some x => Some x
         | None =>
             match own_props patchA_volume !! k with
             | Some x => Some x
             | None => own_props tokenA !! k
             end
         end.
Proof.
  apply (tokens_updated_last_write_wins storeA patchA_volume patchA tokenA (VStr "A") 0);
    try (vm_compute; reflexivity).
  discriminate.
Defined.

(** X2. Delivering the same item twice gives the collection the first delivery
    gave: the merge of an item into a record that already holds its fields
    changes nothing. *)
Theorem tokens_updated_item_idempotent (s : state) (u b : value) :
  get u "token_address" = Ret b → b ≠ VUndef →
  forEach tokens_updated_item [u; u] s = forEach tokens_updated_item [u] s.
Proof.
  intros Hb Hne. simpl. unfold bind.
  destruct (findIndex (same_address u) (allTokens s)) as [[i|]|] eqn:Hf.
  - rewrite (tokens_updated_item_found u s i Hf).
    pose proof Hf as (stored & Hi & Hmatch & _)%findIndex_Some.
    rewrite Hi. simpl.
    assert (findIndex (same_address u) (<[i := spread stored u]> (allTokens s))
            = Ret (Some i)) as Hf2.
    { apply (findIndex_insert_accepted (same_address u)); [done..|].
      by apply (same_address_merged u u stored b). }
    match goal with |- context [tokens_updated_item u ?s1] =>
      rewrite (tokens_updated_item_found u s1 i Hf2) end.
    simpl. rewrite list_lookup_insert_eq by (by eapply lookup_lt_Some).
    simpl. rewrite list_insert_insert_eq. unfold ret.
    assert (spread (spread stored u) u = spread stored u) as ->; [|done].
    unfold spread. simpl. by rewrite (assoc_L (∪)), (idemp_L (∪)).
  - by rewrite !(tokens_updated_item_not_found u s Hf).
  - unfold tokens_updated_item. unfold_M. by rewrite Hf.
Qed.

Lemma tokens_updated_item_idempotent_witness :
  forEach tokens_updated_item [patchA; patchA] storeA =
  forEach tokens_updated_item [patchA] storeA.
Proof.
  apply (tokens_updated_item_idempotent storeA patchA (VStr "A")).
  - reflexivity.
  - discriminate.
Defined.

(** ** When rendering throws *)

(** A loop that only reads a field of each entry throws exactly when an
    entry is [null] or [undefined], and writes nothing. *)
Lemma reader_loop (f : value → M unit) (l : list value) (s : state) :
  (∀ t s0, f t s0 = ((if is_nullish t then Throw else Ret ()), s0)) →
  forEach f l s =
  ((if forallb (λ t, negb (is_nullish t)) l then Ret () else Throw), s).
Proof.
  intros Hf. induction l as [|t l IH]; simpl; [done|].
  unfold bind. rewrite Hf. destruct (is_nullish t); simpl; [done|]. apply IH.
Qed.

Lemma get_reader (k : string) (t : value) (s : state) :
  bind (lift (get t k)) (λ _, ret ()) s = ((if is_nullish t then Throw else Ret ()), s).
Proof. by destruct t. Qed.

(** A loop whose callback writes nothing returns exactly when the callback
    returns on every entry. *)
Lemma checking_loop (P : value → bool) (f : value → M unit) (l : list value) (s : state) :
  (∀ t s0, f t s0 = ((if P t then Ret () else Throw), s0)) →
  forEach f l s = ((if forallb P l then Ret () else Throw), s).
Proof.
  intros Hf. induction l as [|t l IH]; simpl; [done|].
  unfold bind. rewrite Hf. destruct (P t); simpl; [apply IH|done].
Qed.

Lemma forallb_slice (P : value → bool) (l : list value) (start end_ : Z) :
  forallb P l = true → forallb P (slice l start end_) = true.
Proof.
  rewrite !forallb_forall. intros Hl x Hx. apply Hl.
  apply list_elem_of_In. apply list_elem_of_In in Hx. unfold slice in Hx.
  by eapply subseteq_drop, subseteq_take.
Qed.

Lemma forallb_false_Exists (P : value → bool) (l : list value) :
  forallb P l = false ↔ Exists (λ t, P t = false) l.
Proof.
  induction l as [|t l IH]; simpl.
  - split; [done|]. by intros H%Exists_nil.
  - rewrite Exists_cons, <- IH. destruct (P t); simpl; split; try done.
    + by right.
    + by intros [|].
    + by left.
Qed.

(** A falsy value is a primitive, so it has a string form; hence the
    default that [||] puts in place of a falsy value never decides whether
    the conversion throws. *)
Lemma falsy_stringifies (v : value) : truthy v = false → stringifies v = true.
Proof. by destruct v. Qed.

Lemma stringifies_or_else (v d : value) :
  stringifies d = true → stringifies (or_else v d) = stringifies v.
Proof.
  intros Hd. unfold or_else. destruct (truthy v) eqn:Hv; [done|].
  by rewrite Hd, falsy_stringifies.
Qed.

Lemma ToString_outcome (v : value) (s : state) :
  ToString v s = ((if stringifies v then Ret () else Throw), s).
Proof. unfold ToString. by destruct (stringifies v). Qed.

Lemma formatNumber_outcome (v : value) (s : state) :
  formatNumber v s = ((if stringifies v then Ret () else Throw), s).
Proof.
  unfold formatNumber, parseFloat. destruct (truthy v) eqn:Hv.
  - apply ToString_outcome.
  - by rewrite falsy_stringifies.
Qed.

Lemma get_field (t : value) (k : string) :
  is_nullish t = false → get t k = Ret (field t k).
Proof. unfold field. by destruct t. Qed.

Lemma or_read_field (a t : value) (k : string) (s : state) :
  is_nullish t = false → or_read a t k s = (Ret (or_else a (field t k)), s).
Proof.
  intros Ht. unfold or_read, or_else. destruct (truthy a); [done|].
  unfold lift. by rewrite get_field.
Qed.

(** The callback of a row returns exactly on a displayable record. *)
Lemma render_row_outcome (t : value) (s : state) :
  render_row t s = ((if displayable t then Ret () else Throw), s).
Proof.
  unfold displayable. destruct (is_nullish t) eqn:Ht.
  { by destruct t. }
  unfold render_row, shown, parseFloat. simpl.
  unfold bind at 1. unfold lift at 1. rewrite (get_field t _ Ht).
  unfold bind at 1. rewrite (or_read_field _ t _ _ Ht).
  unfold bind at 1. rewrite ToString_outcome, stringifies_or_else by done.
  destruct (stringifies (or_else _ _)); simpl; [|done].
  unfold bind at 1. unfold lift at 1. rewrite (get_field t _ Ht).
  unfold bind at 1. rewrite ToString_outcome.
  destruct (stringifies (field t "token_address")); simpl; [|done].
  unfold bind at 1. unfold lift at 1. rewrite (get_field t _ Ht).
  unfold bind at 1. rewrite ToString_outcome, stringifies_or_else by done.
  destruct (stringifies (field t "token_name")); simpl; [|done].
  unfold bind at 1. unfold lift at 1. rewrite (get_field t _ Ht).
  unfold bind at 1. rewrite ToString_outcome, stringifies_or_else by done.
  destruct (stringifies (field t "token_ticker")); simpl; [|done].
  unfold bind at 1. unfold lift at 1. rewrite (get_field t _ Ht).
  unfold bind at 1. rewrite ToString_outcome, stringifies_or_else by done.
  destruct (stringifies (field t "price_sol")); simpl; [|done].
  unfold bind at 1. unfold lift at 1. rewrite (get_field t _ Ht).
  unfold bind at 1. rewrite (or_read_field _ t _ _ Ht).
  unfold bind at 1. rewrite formatNumber_outcome, stringifies_or_else by done.
  destruct (stringifies (or_else (field t "volume_sol") _)); simpl; [|done].
  unfold bind at 1. unfold lift at 1. rewrite (get_field t _ Ht).
  unfold bind at 1. rewrite (or_read_field _ t _ _ Ht).
  unfold bind at 1. rewrite formatNumber_outcome, stringifies_or_else by done.
  destruct (stringifies (or_else (field t "liquidity_sol") _)); simpl; [|done].
  unfold bind at 1. unfold lift at 1. rewrite (get_field t _ Ht).
  rewrite ToString_outcome, stringifies_or_else by done.
  by destruct (stringifies (field t "protocol")).
Qed.

(** The callback of the sum returns exactly on a summable record. *)
Lemma add_volume_outcome (t : value) (s : state) :
  add_volume t s = ((if summable t then Ret () else Throw), s).
Proof.
  unfold summable. destruct (is_nullish t) eqn:Ht.
  { by destruct t. }
  unfold add_volume, parseFloat. simpl.
  unfold bind at 1. unfold lift at 1. rewrite (get_field t _ Ht).
  unfold bind at 1. rewrite (or_read_field _ t _ _ Ht).
  by rewrite ToString_outcome, stringifies_or_else by done.
Qed.

Lemma displayable_summable (t : value) : displayable t = true → summable t = true.
Proof.
  unfold displayable, summable, shown. simpl.
  destruct (is_nullish t); simpl; [done|].
  intros H. repeat (apply andb_true_iff in H as [? H]). done.
Qed.

Lemma renderTokens_outcome (s : state) :
  renderTokens s = ((if renders s then Ret () else Throw), s).
Proof.
  unfold renderTokens, renders. unfold bind at 1. unfold gets at 1.
  destruct (pageTokens s) as [|t page] eqn:Hpage; [done|].
  destruct (decide _) as [Hlen|_]; [done|]. rewrite <- Hpage.
  unfold bind at 1. rewrite (checking_loop displayable); [|apply render_row_outcome].
  destruct (forallb displayable (pageTokens s)); simpl; [|done].
  unfold updatePagination, updateStats. unfold_M.
  apply (checking_loop summable). apply add_volume_outcome.
Qed.

Lemma applyClientFilters_outcome (s : state) :
  applyClientFilters s = ((if renders (refreshed s) then Ret () else Throw), refreshed s).
Proof.
  unfold applyClientFilters. unfold bind, modify. fold (refreshed s).
  by rewrite renderTokens_outcome.
Qed.

(** X3. [applyClientFilters] always leaves the working sequence equal to the
    collection, and it throws exactly when the page it then renders is not
    empty and either a record on that page cannot be displayed ([null],
    [undefined], or a shown field without a string form) or a record of the
    collection, on that page or not, has a volume that cannot be summed. *)
Theorem applyClientFilters_throws_iff (s : state) :
  (applyClientFilters s).2 = refreshed s ∧
  ((applyClientFilters s).1 = Throw ↔
   pageTokens (refreshed s) ≠ [] ∧
   (Exists (λ t, displayable t = false) (pageTokens (refreshed s)) ∨
    Exists (λ t, summable t = false) (allTokens s))).
Proof.
  rewrite applyClientFilters_outcome. split; [done|]. simpl.
  unfold renders. change (allTokens (refreshed s)) with (allTokens s).
  rewrite <- !forallb_false_Exists.
  destruct (pageTokens (refreshed s)) as [|t page] eqn:Hpage.
  - split; [done|]. by intros [? _].
  - rewrite <- Hpage.
    destruct (forallb displayable (pageTokens (refreshed s))),
             (forallb summable (allTokens s)); simpl; split; try done;
      try (intros _; split; [by rewrite Hpage|]; by (left + right));
      by intros [_ [|]].
Qed.

(** ** Snapshots, continued *)

Lemma forallb_not_nullish (l : list value) :
  forallb (λ t, negb (is_nullish t)) l = true ↔ Forall (λ t, is_nullish t = false) l.
Proof.
  rewrite forallb_forall, Forall_forall. split; intros H t Ht.
  - apply list_elem_of_In in Ht. specialize (H t Ht). by destruct (is_nullish t).
  - apply list_elem_of_In in Ht. by rewrite (H t Ht).
Qed.

(** The bulk fetch on a body from which an array is picked: the array is
    kept when the pass that builds [priceChanges] and the rendering both
    return, and the handler of the [catch] empties the collection when
    either throws. *)
Lemma fetchTokens_resume_array
    (data : value) (l : list value) (ex : gmap string value) (s : state) :
  fetched_tokens data = Ret (VArr l ex) →
  fetchTokens_resume (FetchOk data) s =
  (Ret (), if forallb (λ t, negb (is_nullish t)) l
              && renders (with_filteredTokens l (with_allTokens l s))
           then with_filteredTokens l (with_allTokens l s)
           else emptied s).
Proof.
  intros Hv.
  assert (fetchTokens_resume (FetchOk data) s =
          try_catch
            (bind (modify (with_allTokens l))
               (λ _, bind (forEach price_change_row l) (λ _, applyClientFilters)))
            (bind (modify (with_allTokens [])) (λ _, applyClientFilters)) s) as ->.
  { unfold fetchTokens_resume, try_catch. unfold bind at 1. unfold lift at 1.
    by rewrite Hv. }
  unfold try_catch. unfold bind at 1. unfold modify at 1. unfold bind at 1.
  rewrite (reader_loop price_change_row); [|intros; apply get_reader].
  destruct (forallb _ l) eqn:Hb; simpl.
  - rewrite applyClientFilters_outcome.
    change (refreshed (with_allTokens l s))
      with (with_filteredTokens l (with_allTokens l s)).
    destruct (renders _); [done|]. by rewrite fetch_catch.
  - by rewrite fetch_catch.
Qed.

(** X4. What the bulk fetch does with an array picked from the body.  It is
    installed as both sequences when every record of it is displayable.
    When one of its entries is [null] or [undefined] the pass that builds
    [priceChanges] throws; when a record on the page to show cannot be
    displayed the rendering throws; and when that page is not empty and a
    record anywhere in the array has a volume that cannot be summed the
    statistics throw: each time the handler of the [catch] takes over and
    both sequences end up empty. *)
Theorem fetchTokens_installs_or_empties
    (data : value) (l : list value) (ex : gmap string value) (s : state) :
  fetched_tokens data = Ret (VArr l ex) →
  (Forall (λ t, displayable t = true) l →
   fetchTokens_resume (FetchOk data) s =
     (Ret (), with_filteredTokens l (with_allTokens l s))) ∧
  (Exists (λ t, is_nullish t = true) l →
   fetchTokens_resume (FetchOk data) s = (Ret (), emptied s)) ∧
  (Exists (λ t, displayable t = false)
     (pageTokens (with_filteredTokens l (with_allTokens l s))) →
   fetchTokens_resume (FetchOk data) s = (Ret (), emptied s)) ∧
  (pageTokens (with_filteredTokens l (with_allTokens l s)) ≠ [] →
   Exists (λ t, summable t = false) l →
   fetchTokens_resume (FetchOk data) s = (Ret (), emptied s)).
Proof.
  intros Hv. rewrite (fetchTokens_resume_array data l ex s Hv). repeat split.
  - intros Hall.
    assert (forallb displayable l = true) as Hd.
    { apply forallb_forall. intros t Ht%list_elem_of_In.
      rewrite Forall_forall in Hall. by apply Hall. }
    assert (forallb (λ t, negb (is_nullish t)) l = true) as ->.
    { apply forallb_forall. intros t Ht%list_elem_of_In.
      rewrite Forall_forall in Hall. specialize (Hall t Ht).
      unfold displayable in Hall. by destruct (is_nullish t). }
    assert (renders (with_filteredTokens l (with_allTokens l s)) = true) as ->; [|done].
    unfold renders. destruct (pageTokens _) eqn:Hpage; [done|]. rewrite <- Hpage.
    unfold pageTokens at 1. simpl. rewrite (forallb_slice _ _ _ _ Hd). simpl.
    apply forallb_forall. intros t Ht%list_elem_of_In.
    rewrite Forall_forall in Hall. by apply displayable_summable, Hall.
  - intros Hex. destruct (forallb _ l) eqn:Hb; [|done].
    apply forallb_not_nullish in Hb. rewrite Forall_forall in Hb.
    apply Exists_exists in Hex as (t & Ht & Hnull). by rewrite (Hb t Ht) in Hnull.
  - intros Hex%forallb_false_Exists.
    assert (renders (with_filteredTokens l (with_allTokens l s)) = false) as ->;
      [|by rewrite andb_false_r].
    unfold renders. destruct (pageTokens _) eqn:Hpage; [done|]. by rewrite Hex.
  - intros Hpage Hex%forallb_false_Exists.
    assert (renders (with_filteredTokens l (with_allTokens l s)) = false) as ->;
      [|by rewrite andb_false_r].
    unfold renders. destruct (pageTokens _); [done|].
    change (allTokens (with_filteredTokens l (with_allTokens l s))) with l.
    by rewrite Hex, andb_false_r.
Qed.

Lemma fetchTokens_installs_or_empties_witness :
  fetchTokens_resume (FetchOk (with_data (arr [unprintable_token]))) initial_state =
  (Ret (), emptied initial_state).
Proof.
  destruct (fetchTokens_installs_or_empties
              (with_data (arr [unprintable_token])) [unprintable_token] ∅ initial_state)
    as (_ & _ & Hrow & _); [reflexivity|].
  apply Hrow. apply Exists_cons_hd. reflexivity.
Defined.

(** X5. After a bulk fetch, whatever came back: no exception has escaped, the
    two sequences are equal and hold no [null] or [undefined] entry, and the
    page number and the update counter are what they were. *)
Theorem fetchTokens_postcondition (r : response) (s : state) :
  (fetchTokens_resume r s).1 = Ret () ∧
  filteredTokens (fetchTokens_resume r s).2 = allTokens (fetchTokens_resume r s).2 ∧
  Forall (λ t, is_nullish t = false) (allTokens (fetchTokens_resume r s).2) ∧
  currentPage (fetchTokens_resume r s).2 = currentPage s ∧
  updateCount (fetchTokens_resume r s).2 = updateCount s.
Proof.
  destruct (fetchTokens_resume_cases r s) as [->|(data & l & ex & -> & Hv & _)];
    [by repeat split|].
  rewrite (fetchTokens_resume_array data l ex s Hv).
  destruct (forallb _ l) eqn:Hb; simpl; [|by repeat split].
  destruct (renders _); [|by repeat split].
  apply forallb_not_nullish in Hb. by repeat split.
Qed.

(** X6. The two envelopes the API has used, [{ data: { data: [...] } }] and
    [{ data: [...] }], give the same result. *)
Theorem fetchTokens_envelopes_agree (l : list value) (s : state) :
  fetchTokens_resume (FetchOk (with_data (with_data (arr l)))) s =
  fetchTokens_resume (FetchOk (with_data (arr l))) s.
Proof.
  assert (fetched_tokens (with_data (with_data (arr l))) = Ret (VArr l ∅)) as Hnested.
  { unfold fetched_tokens. rewrite get_with_data. simpl.
    by rewrite lookup_singleton_eq. }
  assert (fetched_tokens (with_data (arr l)) = Ret (VArr l ∅)) as Hflat.
  { unfold fetched_tokens. by rewrite get_with_data. }
  by rewrite (fetchTokens_resume_array _ l ∅ s Hnested),
             (fetchTokens_resume_array _ l ∅ s Hflat).
Qed.

(** The bulk fetch looks at the state it starts in through the page number
    only. *)
Lemma fetchTokens_resume_page (r : response) (s1 s2 : state) :
  currentPage s1 = currentPage s2 →
  allTokens (fetchTokens_resume r s1).2 = allTokens (fetchTokens_resume r s2).2 ∧
  filteredTokens (fetchTokens_resume r s1).2 = filteredTokens (fetchTokens_resume r s2).2.
Proof.
  intros Hpage.
  assert (∀ data, (∀ l ex, fetched_tokens data ≠ Ret (VArr l ex)) →
            ∀ s, fetchTokens_resume (FetchOk data) s = (Ret (), emptied s)) as Hnone.
  { intros data Hdata s.
    destruct (fetchTokens_resume_cases (FetchOk data) s)
      as [?|(? & l & ex & [= <-] & Hv & _)]; [done|]. by destruct (Hdata l ex). }
  destruct r as [|data].
  - by destruct (fetchTokens_resume_cases FetchFailed s1) as [->|(? & ? & ? & ? & _)],
               (fetchTokens_resume_cases FetchFailed s2) as [->|(? & ? & ? & ? & _)].
  - destruct (fetched_tokens data) as [v|] eqn:Hv;
      [destruct v as [| | | | |l ex|]|];
      try (rewrite !Hnone; [done|intros ? ?; by rewrite Hv..]).
    rewrite !(fetchTokens_resume_array data l ex _ Hv).
    assert (renders (with_filteredTokens l (with_allTokens l s1)) =
            renders (with_filteredTokens l (with_allTokens l s2))) as ->.
    { unfold renders, pageTokens. simpl. by rewrite Hpage. }
    by destruct (_ && _).
Qed.

(** X7. A bulk fetch replaces the collection whole: of the state it starts
    in, only the page number bears on the two sequences it leaves (the page
    decides which records are rendered, and a record that cannot be
    rendered empties the collection); and the same response applied again
    changes nothing. *)
Theorem fetchTokens_replace_is_total (r : response) (s1 s2 : state) :
  currentPage s1 = currentPage s2 →
  allTokens (fetchTokens_resume r s1).2 = allTokens (fetchTokens_resume r s2).2 ∧
  filteredTokens (fetchTokens_resume r s1).2 = filteredTokens (fetchTokens_resume r s2).2 ∧
  fetchTokens_resume r (fetchTokens_resume r s1).2 = fetchTokens_resume r s1.
Proof.
  intros Hpage.
  destruct (fetchTokens_resume_page r s1 s2 Hpage) as [Hall Hfil].
  split; [done|]. split; [done|].
  assert (∀ data, (∀ l ex, fetched_tokens data ≠ Ret (VArr l ex)) →
            ∀ s, fetchTokens_resume (FetchOk data) s = (Ret (), emptied s)) as Hnone.
  { intros data Hdata s.
    destruct (fetchTokens_resume_cases (FetchOk data) s)
      as [?|(? & l & ex & [= <-] & Hv & _)]; [done|]. by destruct (Hdata l ex). }
  destruct r as [|data].
  - destruct (fetchTokens_resume_cases FetchFailed s1) as [H1|(? & ? & ? & ? & _)];
      [|done].
    destruct (fetchTokens_resume_cases FetchFailed (emptied s1))
      as [H3|(? & ? & ? & ? & _)]; [|done].
    by rewrite H1; simpl; rewrite H3.
  - destruct (fetched_tokens data) as [v|] eqn:Hv;
      [destruct v as [| | | | |l ex|]|];
      try (rewrite !Hnone; [done|intros ? ?; by rewrite Hv..]).
    rewrite (fetchTokens_resume_array data l ex s1 Hv).
    destruct (forallb _ l && renders _) eqn:Hok; simpl.
    + rewrite (fetchTokens_resume_array data l ex _ Hv).
      assert (renders (with_filteredTokens l
                (with_allTokens l (with_filteredTokens l (with_allTokens l s1)))) =
              renders (with_filteredTokens l (with_allTokens l s1))) as -> by done.
      by rewrite Hok.
    + rewrite (fetchTokens_resume_array data l ex _ Hv).
      assert (renders (with_filteredTokens l (with_allTokens l (emptied s1))) =
              renders (with_filteredTokens l (with_allTokens l s1))) as -> by done.
      by rewrite Hok.
Qed.

Lemma fetchTokens_replace_is_total_witness :
  allTokens (fetchTokens_resume (FetchOk (with_data (arr [unprintable_token]))) storeA).2 =
  allTokens (fetchTokens_resume (FetchOk (with_data (arr [unprintable_token])))
               initial_state).2.
Proof.
  apply (fetchTokens_replace_is_total _ storeA initial_state). reflexivity.
Defined.

(** A record whose name is an object with an own [toString]: at page 1
    rendering it throws and the fetch ends empty; at page 2 nothing is
    rendered and the record stays. *)
Example fetch_depends_on_page :
  allTokens (fetchTokens_resume (FetchOk (with_data (arr [unprintable_token])))
               initial_state).2 = [] ∧
  allTokens (fetchTokens_resume (FetchOk (with_data (arr [unprintable_token])))
               (with_currentPage 2 initial_state)).2 = [unprintable_token].
Proof. vm_compute. split; reflexivity. Qed.

(** X8. A pushed snapshot whose [data] is an array is installed as it is, of
    any length and with any entries, as both sequences, whether or not the
    rendering that follows throws; so it does not depend on what was there,
    and pushing it again changes nothing. *)
Theorem initial_data_installs_verbatim
    (ev : value) (l : list value) (ex : gmap string value) (s : state) :
  get ev "data" = Ret (VArr l ex) →
  (initial_data ev s).2 = with_filteredTokens l (with_allTokens l s) ∧
  (∀ s', allTokens (initial_data ev s').2 = allTokens (initial_data ev s).2) ∧
  (initial_data ev (initial_data ev s).2).2 = (initial_data ev s).2.
Proof.
  intros Hd.
  assert (∀ s0, (initial_data ev s0).2 = with_filteredTokens l (with_allTokens l s0))
    as Hinst.
  { intros s0. unfold initial_data. unfold bind at 1. unfold lift at 1.
    rewrite Hd. simpl. unfold bind, modify. rewrite (surjective_pairing (applyClientFilters _)).
    destruct (applyClientFilters _).1 as [[]|] eqn:Ho; simpl;
      by rewrite applyClientFilters_state. }
  split; [apply Hinst|]. split.
  - intros s'. by rewrite !Hinst.
  - by rewrite !Hinst.
Qed.

Lemma initial_data_installs_verbatim_witness :
  (initial_data (with_data (arr (replicate 150 VNull))) storeA).2 =
  with_filteredTokens (replicate 150 VNull)
    (with_allTokens (replicate 150 VNull) storeA).
Proof.
  apply (initial_data_installs_verbatim _ (replicate 150 VNull) ∅ storeA).
  apply get_with_data.
Defined.

(** ** Pages and the page controls *)

Lemma pageTokens_take_drop (s : state) :
  (1 ≤ currentPage s)%Z →
  pageTokens s =
  take 25 (drop (Z.to_nat ((currentPage s - 1) * 25)) (filteredTokens s)).
Proof.
  intros Hp. unfold pageTokens, tokensPerPage. by rewrite slice_from by lia.
Qed.

Lemma totalPages_le (s : state) (n : Z) :
  (totalPages s ≤ n ↔ Z.of_nat (length (filteredTokens s)) ≤ 25 * n)%Z.
Proof. pose proof (totalPages_ceiling s). lia. Qed.

(** X9. The size of a page: 25 records, fewer on the last page, none past it.
    A page is empty exactly when its number is past the last page. *)
Theorem page_size_and_emptiness (s : state) :
  (1 ≤ currentPage s)%Z →
  length (pageTokens s) =
    Z.to_nat (Z.min 25 (Z.of_nat (length (filteredTokens s))
                        - 25 * (currentPage s - 1))) ∧
  (pageTokens s = [] ↔ (totalPages s < currentPage s)%Z).
Proof.
  intros Hp. rewrite pageTokens_take_drop by done.
  assert (length (take 25 (drop (Z.to_nat ((currentPage s - 1) * 25)) (filteredTokens s)))
          = Z.to_nat (Z.min 25 (Z.of_nat (length (filteredTokens s))
                                - 25 * (currentPage s - 1)))) as Hlen.
  { rewrite length_take, length_drop. lia. }
  split; [done|].
  rewrite <- length_zero_iff_nil, Hlen.
  pose proof (totalPages_le s (currentPage s - 1)). lia.
Qed.

Lemma page_size_and_emptiness_witness :
  length (pageTokens store26) = 1%nat.
Proof.
  destruct (page_size_and_emptiness store26) as [Hlen _].
  - vm_compute. discriminate.
  - exact Hlen.
Defined.

Lemma concat_chunks (l : list value) (k : nat) :
  concat ((λ i : nat, take 25 (drop (25 * i) l)) <$> seq 0 k) = take (25 * k) l.
Proof.
  induction k as [|k IH]; [done|].
  rewrite seq_S, fmap_app, concat_app, IH. simpl. rewrite app_nil_r.
  rewrite take_take_drop. f_equal. lia.
Qed.

(** X10. The pages 1 to [totalPages], one after the other, are the working
    sequence: paging neither drops nor repeats a record. *)
Theorem pages_partition_the_sequence (s : state) :
  concat ((λ i : nat, pageTokens (with_currentPage (Z.of_nat (S i)) s))
            <$> seq 0 (Z.to_nat (totalPages s)))
  = filteredTokens s.
Proof.
  pose proof (totalPages_ceiling s) as Hceil.
  transitivity (take (25 * Z.to_nat (totalPages s)) (filteredTokens s));
    [|apply take_ge; lia].
  rewrite <- concat_chunks. f_equal. apply list_fmap_ext. intros _ i _.
  rewrite pageTokens_take_drop by (simpl; lia). simpl. do 2 f_equal. lia.
Qed.

(** What the two page buttons do to the state: rendering changes nothing,
    so only the page number can move. *)
Lemma prevPage_state (s : state) :
  (prevPage s).2 =
  if (1 <? currentPage s)%Z then with_currentPage (currentPage s - 1) s else s.
Proof.
  unfold prevPage. unfold bind at 1. unfold gets at 1.
  destruct (1 <? currentPage s)%Z; [|done].
  unfold bind, modify. rewrite (surjective_pairing (renderTokens _)).
  rewrite renderTokens_state. by destruct (renderTokens _).1 as [[]|].
Qed.

Lemma nextPage_state (s : state) :
  (nextPage s).2 =
  if (currentPage s <? totalPages s)%Z then with_currentPage (currentPage s + 1) s else s.
Proof.
  unfold nextPage. unfold bind at 1. unfold gets at 1.
  unfold bind at 1. unfold gets at 1.
  destruct (currentPage s <? totalPages s)%Z; [|done].
  unfold bind, modify. rewrite (surjective_pairing (renderTokens _)).
  rewrite renderTokens_state. by destruct (renderTokens _).1 as [[]|].
Qed.

(** X11. The page controls keep the page number between 1 and the number of
    pages (or at 1 when there is no page at all). *)
Theorem page_controls_stay_in_range (s : state) (e : event) :
  is_navigation e = true →
  (1 ≤ currentPage s ≤ Z.max 1 (totalPages s))%Z →
  (1 ≤ currentPage (step s e) ≤ Z.max 1 (totalPages (step s e)))%Z.
Proof.
  intros He Hs. destruct e; try done; unfold step, handle.
  - simpl. unfold totalPages. simpl. fold (totalPages s). lia.
  - rewrite prevPage_state. destruct (Z.ltb_spec 1 (currentPage s)); [|done].
    unfold totalPages. simpl. fold (totalPages s). lia.
  - rewrite nextPage_state.
    destruct (Z.ltb_spec (currentPage s) (totalPages s)); [|done].
    unfold totalPages. simpl. fold (totalPages s). lia.
Qed.

Lemma page_controls_stay_in_range_witness :
  (1 ≤ currentPage (step store26 NextPage) ≤ Z.max 1 (totalPages (step store26 NextPage)))%Z.
Proof.
  apply (page_controls_stay_in_range store26 NextPage).
  - reflexivity.
  - vm_compute. split; discriminate.
Defined.

(** X12. Next then Previous, and Previous then Next, bring the state back
    whenever the first of the two moves the page. *)
Theorem page_controls_round_trip (s : state) :
  (1 ≤ currentPage s)%Z →
  ((currentPage s < totalPages s)%Z → (prevPage (nextPage s).2).2 = s) ∧
  ((1 < currentPage s ≤ totalPages s)%Z → (nextPage (prevPage s).2).2 = s).
Proof.
  intros Hp. split.
  - intros Hlt. rewrite nextPage_state.
    destruct (Z.ltb_spec (currentPage s) (totalPages s)); [|lia].
    rewrite prevPage_state. simpl.
    destruct (Z.ltb_spec 1 (currentPage s + 1)); [|lia].
    destruct s. unfold with_currentPage. simpl. f_equal. lia.
  - intros [Hgt Hle]. rewrite prevPage_state.
    destruct (Z.ltb_spec 1 (currentPage s)); [|lia].
    rewrite nextPage_state. unfold totalPages at 1. simpl. fold (totalPages s).
    destruct (Z.ltb_spec (currentPage s - 1) (totalPages s)); [|lia].
    destruct s. unfold with_currentPage. simpl. f_equal. lia.
Qed.

Lemma page_controls_round_trip_witness :
  (prevPage (nextPage store26_first).2).2 = store26_first.
Proof.
  destruct (page_controls_round_trip store26_first) as [Hnext _].
  - vm_compute. discriminate.
  - apply Hnext. vm_compute. reflexivity.
Defined.

(** X13. Next never lands on an empty page: when it moves, the page it moves to
    holds at least one record. *)
Theorem nextPage_lands_on_records (s : state) :
  (1 ≤ currentPage s)%Z →
  currentPage (nextPage s).2 ≠ currentPage s →
  currentPage (nextPage s).2 = (currentPage s + 1)%Z ∧
  pageTokens (nextPage s).2 ≠ [].
Proof.
  intros Hp. rewrite nextPage_state.
  destruct (Z.ltb_spec (currentPage s) (totalPages s)) as [Hlt|]; [|done].
  intros _. split; [done|].
  pose proof (totalPages_ceiling s) as Hceil.
  rewrite pageTokens_take_drop by (simpl; lia). simpl.
  rewrite <- length_zero_iff_nil, length_take, length_drop. lia.
Qed.

Lemma nextPage_lands_on_records_witness :
  currentPage (nextPage store26_first).2 = 2%Z ∧
  pageTokens (nextPage store26_first).2 ≠ [].
Proof.
  apply (nextPage_lands_on_records store26_first).
  - vm_compute. discriminate.
  - vm_compute. discriminate.
Defined.

(** X14. A button that [updatePagination] disables is one whose handler would
    not move the page, and the other way round. *)
Theorem disabled_buttons_do_nothing (s : state) :
  (1 ≤ currentPage s)%Z →
  (prevBtn_disabled s = true ↔ currentPage (prevPage s).2 = currentPage s) ∧
  (nextBtn_disabled s = true ↔ currentPage (nextPage s).2 = currentPage s).
Proof.
  intros Hp. rewrite prevPage_state, nextPage_state.
  unfold prevBtn_disabled, nextBtn_disabled. split.
  - destruct (Z.ltb_spec 1 (currentPage s)), (Z.eqb_spec (currentPage s) 1);
      simpl; split; try done; lia.
  - destruct (Z.ltb_spec (currentPage s) (totalPages s)),
      (Z.leb_spec (totalPages s) (currentPage s)); simpl; split; try done; lia.
Qed.

Lemma disabled_buttons_do_nothing_witness :
  nextBtn_disabled store26 = true ↔ currentPage (nextPage store26).2 = currentPage store26.
Proof.
  apply (disabled_buttons_do_nothing store26). vm_compute. discriminate.
Defined.

(** ** What one turn of the event loop can change *)

Lemma then_applyClientFilters_cases (m : M unit) (s : state) :
  (bind m (λ _, applyClientFilters) s).2 = (m s).2 ∨
  (bind m (λ _, applyClientFilters) s).2 = refreshed (m s).2.
Proof.
  unfold bind. destruct (m s) as [[[]|] s1]; simpl; [|by left].
  right. apply applyClientFilters_state.
Qed.

Lemma step_cases (s : state) (e : event) :
  ∃ (l : list value) (p : Z) (fresh : bool),
    step s e =
      turn l p (if is_update e then num_succ (updateCount s) else updateCount s) fresh s ∧
    (is_navigation e = false → p = currentPage s) ∧
    (is_navigation e = true → l = allTokens s ∧ fresh = false ∧
       p = currentPage (step s e)) ∧
    (is_snapshot e = false →
       (length l ≤ length (allTokens s) `max` 100)%nat ∧
       (length (allTokens s) ≤ length l)%nat) ∧
    (fresh = false → length l = length (allTokens s)).
Proof.
  assert (∀ (f : value → M unit) (items : list value),
            patch_callback f →
            ∃ l fresh,
              (bind (forEach f items) (λ _, applyClientFilters) (counted s)).2 =
                turn l (currentPage s) (num_succ (updateCount s)) fresh s ∧
              length l = length (allTokens s)) as Hpatch.
  { intros f items Hf.
    destruct (patch_loop_frame f Hf items (counted s)) as (l & Hl & Hlen).
    exists l.
    destruct (then_applyClientFilters_cases (forEach f items) (counted s)) as [->| ->];
      rewrite Hl; [exists false|exists true]; by destruct s. }
  destruct e as [v|v|v|v|v|r| | |]; unfold step, handle; simpl.
  - (* initial_data *)
    unfold initial_data. unfold bind at 1. unfold lift at 1.
    destruct (get v "data") as [d|] eqn:Hd.
    + destruct (truthy d && isArray d) eqn:Hg.
      * exists (elements d), (currentPage s), true. split; [|by repeat split].
        unfold bind, modify. rewrite (surjective_pairing (applyClientFilters _)).
        destruct (applyClientFilters _).1 as [[]|]; simpl;
          rewrite applyClientFilters_state; by destruct s.
      * exists (allTokens s), (currentPage s), false.
        split; [by destruct s|]. by repeat split.
    + exists (allTokens s), (currentPage s), false.
      split; [by destruct s|]. by repeat split.
  - (* tokens_updated *)
    unfold tokens_updated, incrUpdateCount.
    unfold bind at 1. unfold modify at 1. unfold bind at 1. unfold lift at 1.
    fold (counted s).
    destruct (get v "data") as [d|] eqn:Hd;
      [destruct (truthy d && isArray d)|].
    + destruct (Hpatch _ (elements d) tokens_updated_item_callback)
        as (l & fresh & -> & Hlen).
      exists l, (currentPage s), fresh. rewrite Hlen. repeat split; try done; lia.
    + exists (allTokens s), (currentPage s), false.
      split; [by destruct s|]. repeat split; try done; lia.
    + exists (allTokens s), (currentPage s), false.
      split; [by destruct s|]. repeat split; try done; lia.
  - (* price_update *)
    unfold price_update, incrUpdateCount.
    unfold bind at 1. unfold modify at 1. unfold bind at 1. unfold lift at 1.
    fold (counted s).
    destruct (get v "data") as [d|] eqn:Hd.
    + destruct (Hpatch _ (as_batch d) price_update_item_callback)
        as (l & fresh & -> & Hlen).
      exists l, (currentPage s), fresh. rewrite Hlen. repeat split; try done; lia.
    + exists (allTokens s), (currentPage s), false.
      split; [by destruct s|]. repeat split; try done; lia.
  - (* volume_spike *)
    unfold volume_spike, incrUpdateCount.
    unfold bind at 1. unfold modify at 1. unfold bind at 1. unfold lift at 1.
    fold (counted s).
    destruct (get v "data") as [d|] eqn:Hd.
    + destruct (Hpatch _ (as_batch d) volume_spike_item_callback)
        as (l & fresh & -> & Hlen).
      exists l, (currentPage s), fresh. rewrite Hlen. repeat split; try done; lia.
    + exists (allTokens s), (currentPage s), false.
      split; [by destruct s|]. repeat split; try done; lia.
  - (* new_token *)
    destruct (get v "data") as [d|] eqn:Hd.
    + destruct (truthy d) eqn:Ht.
      * rewrite (new_token_inserts v d s Hd Ht).
        exists (unshift_bounded d (allTokens s)), (currentPage s), true.
        split; [by destruct s|]. repeat split; try done.
        -- destruct (decide (length (allTokens s) < 100)%nat) as [Hlt|Hge].
           ++ rewrite unshift_bounded_below by done. simpl. lia.
           ++ destruct (unshift_bounded_evicts d (allTokens s)) as (z & _ & Hz); [lia|].
              apply (f_equal length) in Hz. rewrite length_app in Hz. simpl in Hz. lia.
        -- destruct (decide (length (allTokens s) < 100)%nat) as [Hlt|Hge].
           ++ rewrite unshift_bounded_below by done. simpl. lia.
           ++ destruct (unshift_bounded_evicts d (allTokens s)) as (z & _ & Hz); [lia|].
              apply (f_equal length) in Hz. rewrite length_app in Hz. simpl in Hz. lia.
      * rewrite (new_token_ignores v d s Hd Ht). simpl.
        exists (allTokens s), (currentPage s), false.
        split; [by destruct s|]. repeat split; try done; lia.
    + exists (allTokens s), (currentPage s), false. split.
      * unfold new_token, incrUpdateCount. unfold_M. rewrite Hd. by destruct s.
      * repeat split; try done; lia.
  - (* fetch *)
    destruct (fetchTokens_resume_cases r s) as [->|(data & l & ex & _ & _ & ->)]; simpl.
    + exists [], (currentPage s), true. split; [by destruct s|]. by repeat split.
    + exists l, (currentPage s), true. split; [by destruct s|]. by repeat split.
  - (* applyFilters *)
    exists (allTokens s), 1%Z, false. split; [by destruct s|].
    repeat split; try done; lia.
  - (* prevPage *)
    rewrite prevPage_state.
    exists (allTokens s), (currentPage (if (1 <? currentPage s)%Z
                                        then with_currentPage (currentPage s - 1) s else s)),
      false.
    split; [destruct (1 <? currentPage s)%Z; by destruct s|].
    repeat split; try done; lia.
  - (* nextPage *)
    rewrite nextPage_state.
    exists (allTokens s), (currentPage (if (currentPage s <? totalPages s)%Z
                                        then with_currentPage (currentPage s + 1) s else s)),
      false.
    split; [destruct (currentPage s <? totalPages s)%Z; by destruct s|].
    repeat split; try done; lia.
Qed.

(** ** Invariants of the event loop *)

Lemma run_snoc (es : list event) (e : event) (s : state) :
  run (es ++ [e]) s = step (run es s) e.
Proof. unfold run. by rewrite foldl_snoc. Qed.

(** X15. The working sequence always has as many entries as the collection, in
    every state the loop can reach: a refresh makes them equal, and what
    happens between two refreshes keeps the length of the collection. *)
Theorem sequences_keep_equal_length (es : list event) (s : state) :
  length (filteredTokens s) = length (allTokens s) →
  length (filteredTokens (run es s)) = length (allTokens (run es s)).
Proof.
  intros Hs. induction es as [|e es IH] using rev_ind; [done|].
  rewrite run_snoc.
  destruct (step_cases (run es s) e) as (l & p & fresh & -> & _ & _ & _ & Hlen).
  unfold turn. destruct fresh; simpl; [done|]. rewrite Hlen by done. exact IH.
Qed.

Lemma sequences_keep_equal_length_witness :
  length (filteredTokens (run four_updates initial_state)) =
  length (allTokens (run four_updates initial_state)).
Proof.
  apply (sequences_keep_equal_length four_updates initial_state). reflexivity.
Defined.

(** X16. Without a snapshot the collection never shrinks and never grows past
    100 records, or past the size it had if that was more: patches keep its
    size, and an insertion adds a record only while there are fewer than 100. *)
Theorem updates_keep_size_within_bound (es : list event) (s : state) :
  Forall (λ e, is_snapshot e = false) es →
  (length (allTokens s) ≤ length (allTokens (run es s))
   ≤ length (allTokens s) `max` 100)%nat.
Proof.
  intros Hes. induction es as [|e es IH] using rev_ind; [simpl; lia|].
  apply Forall_app in Hes as [Hes He]. rewrite Forall_singleton in He. specialize (IH Hes).
  rewrite run_snoc.
  destruct (step_cases (run es s) e) as (l & p & fresh & -> & _ & _ & Hsize & _).
  destruct (Hsize He) as [Hup Hdown].
  assert (allTokens (turn l p
            (if is_update e then num_succ (updateCount (run es s))
             else updateCount (run es s)) fresh (run es s)) = l) as ->.
  { unfold turn. by destruct fresh. }
  lia.
Qed.

Lemma updates_keep_size_within_bound_witness :
  (length (allTokens storeA) ≤ length (allTokens (run four_updates storeA))
   ≤ length (allTokens storeA) `max` 100)%nat.
Proof.
  apply (updates_keep_size_within_bound four_updates storeA).
  repeat constructor.
Defined.

(** X17. No socket event and no fetch response moves the page number, so after
    a snapshot that leaves fewer pages than the current page number the
    page shown is empty. *)
Theorem data_events_keep_the_page (s : state) (e : event) :
  is_navigation e = false →
  currentPage (step s e) = currentPage s ∧
  ((1 ≤ currentPage s)%Z → (totalPages (step s e) < currentPage s)%Z →
   pageTokens (step s e) = []).
Proof.
  intros He.
  assert (currentPage (step s e) = currentPage s) as Hpage.
  { destruct (step_cases s e) as (l & p & fresh & -> & Hp & _).
    rewrite (Hp He). unfold turn. by destruct fresh. }
  split; [done|]. intros Hp Hpast.
  rewrite pageTokens_take_drop by lia.
  apply length_zero_iff_nil. rewrite length_take, length_drop, Hpage.
  pose proof (totalPages_ceiling (step s e)). lia.
Qed.

Lemma data_events_keep_the_page_witness :
  currentPage (step store26 (FetchDone FetchFailed)) = 2%Z ∧
  pageTokens (step store26 (FetchDone FetchFailed)) = [].
Proof.
  destruct (data_events_keep_the_page store26 (FetchDone FetchFailed) eq_refl)
    as [Hpage Hempty].
  split; [exact Hpage|]. apply Hempty; vm_compute; done.
Defined.

(** X18. The update counter never goes down, moves by at most one per update
    event, and is left alone by snapshots and page controls. *)
Theorem update_counter_is_monotone (es : list event) (s : state) :
  (updateCount s ≤ updateCount (run es s)
   ≤ updateCount s + Z.of_nat (length (filter (λ e, is_update e = true) es)))%Z ∧
  (Forall (λ e, is_update e = false) es → updateCount (run es s) = updateCount s).
Proof.
  assert (∀ s0 e, updateCount (step s0 e) =
                  if is_update e then num_succ (updateCount s0) else updateCount s0)
    as Hstep.
  { intros s0 e. destruct (step_cases s0 e) as (l & p & fresh & -> & _).
    unfold turn. by destruct fresh. }
  assert (∀ n, (n ≤ num_succ n ≤ n + 1)%Z) as Hsucc.
  { intros n. unfold num_succ. destruct (n <? 2 ^ 53)%Z; lia. }
  split.
  - induction es as [|e es IH] using rev_ind; [simpl; lia|].
    rewrite run_snoc, Hstep, filter_app, length_app.
    pose proof (Hsucc (updateCount (run es s))).
    destruct (is_update e) eqn:He.
    + rewrite filter_cons_True by done. simpl. lia.
    + rewrite filter_cons_False by (by rewrite He). simpl. lia.
  - intros Hes. induction es as [|e es IH] using rev_ind; [done|].
    apply Forall_app in Hes as [Hes He]. rewrite Forall_singleton in He.
    by rewrite run_snoc, Hstep, He, IH.
Qed.

(** ** How events compose *)

Lemma tokens_updated_item_reads_collection : reads_collection_only tokens_updated_item.
Proof.
  intros x s s' Heq. unfold tokens_updated_item. unfold_M. rewrite Heq.
  destruct (findIndex _ _) as [[i|]|]; simpl; try done.
  by destruct (get x "token_address").
Qed.

Lemma price_update_item_reads_collection : reads_collection_only price_update_item.
Proof.
  intros x s s' Heq. unfold price_update_item, assign_at. unfold_M. rewrite Heq.
  destruct (findIndex _ _) as [[i|]|]; simpl; try done.
  destruct (truthy _); simpl; try done.
  destruct (get x "new_price"); simpl; try done.
  destruct (get x "change_percent"); simpl; try by rewrite Heq.
  destruct (get x "token_address"); simpl; by rewrite Heq.
Qed.

Lemma volume_spike_item_reads_collection : reads_collection_only volume_spike_item.
Proof.
  intros x s s' Heq. unfold volume_spike_item, assign_at. unfold_M. rewrite Heq.
  destruct (findIndex _ _) as [[i|]|]; simpl; try done.
  destruct (truthy _); simpl; try done.
  destruct (get x "new_volume"); simpl; try done.
  destruct (get x "token_address"); simpl; by rewrite Heq.
Qed.

Lemma forEach_reads_collection (f : value → M unit) (items : list value) (s s' : state) :
  reads_collection_only f → allTokens s = allTokens s' →
  (forEach f items s).1 = (forEach f items s').1 ∧
  allTokens (forEach f items s).2 = allTokens (forEach f items s').2.
Proof.
  intros Hf. revert s s'. induction items as [|x items IH]; intros s s' Heq; [done|].
  simpl. unfold bind. destruct (Hf x s s' Heq) as [Ho Hl].
  destruct (f x s) as [[[]|] s1], (f x s') as [[[]|] s1']; simpl in *; try done.
  by apply IH.
Qed.

Section SplitBatch.
Variable f : value → M unit.
Hypothesis Hreads : reads_collection_only f.

(** A loop over [xs ++ ys] that gets through [xs] leaves the collection
    that a loop over [xs], a refresh, a second count and a loop over [ys]
    leave. *)
Lemma split_loop (xs ys : list value) (s : state) :
  (forEach f xs (counted s)).1 = Ret () →
  allTokens (bind (forEach f (xs ++ ys)) (λ _, applyClientFilters) (counted s)).2 =
  allTokens (bind (forEach f ys) (λ _, applyClientFilters)
               (counted (bind (forEach f xs) (λ _, applyClientFilters) (counted s)).2)).2.
Proof.
  intros Hxs. rewrite !then_applyClientFilters_allTokens, forEach_app.
  destruct (forEach f xs (counted s)) as [[[]|] s1] eqn:Hrun; [|done].
  apply forEach_reads_collection; [done|]. simpl.
  rewrite then_applyClientFilters_allTokens. by rewrite Hrun.
Qed.
End SplitBatch.

(** X19. One batch or two: when no item of [xs] makes the callback throw, an
    event carrying [xs ++ ys] leaves the collection that an event carrying
    [xs] followed by an event carrying [ys] leaves.  This holds for bulk
    patches, price ticks and volume ticks. *)
Theorem batch_splits_into_events (xs ys : list value) (s : state) :
  ((forEach tokens_updated_item xs (counted s)).1 = Ret () →
   allTokens (tokens_updated (with_data (arr (xs ++ ys))) s).2 =
   allTokens (tokens_updated (with_data (arr ys))
                (tokens_updated (with_data (arr xs)) s).2).2) ∧
  ((forEach price_update_item xs (counted s)).1 = Ret () →
   allTokens (price_update (with_data (arr (xs ++ ys))) s).2 =
   allTokens (price_update (with_data (arr ys))
                (price_update (with_data (arr xs)) s).2).2) ∧
  ((forEach volume_spike_item xs (counted s)).1 = Ret () →
   allTokens (volume_spike (with_data (arr (xs ++ ys))) s).2 =
   allTokens (volume_spike (with_data (arr ys))
                (volume_spike (with_data (arr xs)) s).2).2).
Proof.
  rewrite !tokens_updated_batch, !price_update_batch, !volume_spike_batch.
  repeat split; intros Hxs.
  - by apply (split_loop _ tokens_updated_item_reads_collection).
  - by apply (split_loop _ price_update_item_reads_collection).
  - by apply (split_loop _ volume_spike_item_reads_collection).
Qed.

Lemma unshift_bounded_head (d : value) (l : list value) :
  ∃ rest, unshift_bounded d l = d :: rest ∧
          ((length l < 100)%nat → rest = l).
Proof.
  destruct (decide (length l < 100)%nat) as [Hlt|Hge].
  - exists l. by rewrite unshift_bounded_below.
  - unfold unshift_bounded.
    destruct (Z.ltb_spec 100 (Z.of_nat (length (d :: l)))) as [H|H];
      [|simpl in H; lia].
    destruct l as [|y l]; [simpl in Hge; lia|].
    exists (removelast (y :: l)). split; [done|]. intros Hlt. lia.
Qed.

(** X20. [new_token] does not look the address up: the payload goes to the
    front whatever is stored, and below the bound every older record stays,
    one with the same address included.  A bulk patch for that address
    then reaches the new record only. *)
Theorem new_token_shadows_older_records (s : state) (ev d u : value) :
  get ev "data" = Ret d → truthy d = true →
  same_address u d = Ret true →
  ∃ rest,
    allTokens (new_token ev s).2 = d :: rest ∧
    ((length (allTokens s) < 100)%nat → rest = allTokens s) ∧
    allTokens (tokens_updated (with_data (arr [u])) (new_token ev s).2).2 =
      spread d u :: rest.
Proof.
  intros Hd Ht Hmatch.
  destruct (unshift_bounded_head d (allTokens s)) as (rest & Hhead & Hrest).
  assert (allTokens (new_token ev s).2 = d :: rest) as Hall.
  { by rewrite (new_token_inserts ev d s Hd Ht). }
  exists rest. split; [done|]. split; [done|].
  destruct (tokens_updated_merge_step u (new_token ev s).2 0 d) as [_ ->].
  - rewrite Hall. simpl. by rewrite Hmatch.
  - by rewrite Hall.
  - by rewrite Hall.
Qed.

Lemma new_token_shadows_older_records_witness :
  ∃ rest,
    allTokens (new_token (with_data tokenA) storeA).2 = tokenA :: rest ∧
    ((length (allTokens storeA) < 100)%nat → rest = allTokens storeA) ∧
    allTokens (tokens_updated (with_data (arr [patchA]))
                 (new_token (with_data tokenA) storeA).2).2 =
      spread tokenA patchA :: rest.
Proof.
  apply (new_token_shadows_older_records storeA (with_data tokenA) tokenA patchA);
    vm_compute; reflexivity.
Defined.

(** ** Price ticks and volume ticks commute *)

Lemma set_prop_keeps_identity (k : string) (x : value) :
  k ≠ "token_address" → keeps_identity (set_prop k x).
Proof.
  intros Hk. split.
  - intros y t. unfold same_address.
    assert (get (set_prop k x t) "token_address" = get t "token_address") as ->; [|done].
    destruct t; simpl; try done; by rewrite lookup_insert_ne.
  - intros t. by destruct t.
Qed.

Lemma keeps_identity_compose (g h : value → value) :
  keeps_identity g → keeps_identity h → keeps_identity (g ∘ h).
Proof.
  intros [Hg1 Hg2] [Hh1 Hh2]. split; intros; simpl.
  - by rewrite Hg1, Hh1.
  - by rewrite Hg2, Hh2.
Qed.

Lemma keeps_identity_id : keeps_identity id.
Proof. by split. Qed.

Lemma price_assign_keeps_identity (u : value) : keeps_identity (price_assign u).
Proof.
  unfold price_assign.
  destruct (get u "new_price"), (get u "change_percent");
    try apply keeps_identity_id.
  apply keeps_identity_compose; by apply set_prop_keeps_identity.
Qed.

Lemma volume_assign_keeps_identity (v : value) : keeps_identity (volume_assign v).
Proof.
  unfold volume_assign. destruct (get v "new_volume"); [|apply keeps_identity_id].
  by apply set_prop_keeps_identity.
Qed.

Lemma set_prop_commute (k k' : string) (x y t : value) :
  k ≠ k' → set_prop k x (set_prop k' y t) = set_prop k' y (set_prop k x t).
Proof.
  intros Hk. destruct t; simpl; try done; f_equal; by apply insert_insert_ne.
Qed.

Lemma price_volume_assign_commute (u v t : value) :
  price_assign u (volume_assign v t) = volume_assign v (price_assign u t).
Proof.
  unfold price_assign, volume_assign.
  destruct (get u "new_price"), (get u "change_percent"), (get v "new_volume");
    simpl; try done.
  by rewrite !(set_prop_commute _ "volume_sol").
Qed.

Lemma findIndex_ext (p q : value → outcome bool) (l : list value) :
  (∀ t, p t = q t) → findIndex p l = findIndex q l.
Proof.
  intros Hpq. induction l as [|t l IH]; simpl; [done|]. by rewrite Hpq, IH.
Qed.

Lemma findIndex_alter (p : value → outcome bool) (g : value → value)
    (i : nat) (l : list value) :
  (∀ t, p (g t) = p t) → findIndex p (alter g i l) = findIndex p l.
Proof.
  intros Hg. revert i. induction l as [|t l IH]; intros [|i]; try done.
  - simpl. by rewrite Hg.
  - specialize (IH i). simpl.
    change (list_alter g i l) with (alter g i l). by rewrite IH.
Qed.

(** After a tick by an assignment that keeps identities, every search
    gives what it gave and every entry is as truthy as it was. *)
Lemma tick_effect_keeps_searches (g : value → value) (u x : value) (l : list value) :
  keeps_identity g →
  findIndex (same_address x) (tick_effect g u l).2 = findIndex (same_address x) l ∧
  ∀ j, truthy (default VUndef ((tick_effect g u l).2 !! j)) =
       truthy (default VUndef (l !! j)).
Proof.
  intros [Hg1 Hg2]. unfold tick_effect.
  destruct (findIndex (same_address u) l) as [[i|]|]; simpl; try done.
  destruct (truthy (default VUndef (l !! i))); [|done]. split.
  - by apply findIndex_alter.
  - intros j. rewrite list_lookup_alter. case_decide; [|done].
    subst j. destruct (l !! i); simpl; [apply Hg2|done].
Qed.

Lemma alter_alter_commute (g h : value → value) (i j : nat) (l : list value) :
  (∀ t, g (h t) = h (g t)) → alter g i (alter h j l) = alter h j (alter g i l).
Proof.
  intros Hgh. destruct (decide (i = j)) as [->|Hne].
  - rewrite !list_alter_alter_eq. apply list_alter_ext; [|done].
    intros t _. apply Hgh.
  - by apply list_alter_alter_ne.
Qed.

(** A tick on a collection in which the searches and the truthiness of the
    entries are those of [l]. *)
Lemma tick_effect_on (g : value → value) (u : value) (l l' : list value) :
  findIndex (same_address u) l' = findIndex (same_address u) l →
  (∀ j, truthy (default VUndef (l' !! j)) = truthy (default VUndef (l !! j))) →
  tick_effect g u l' =
  match findIndex (same_address u) l with
  | Ret (Some i) => (Ret (), if truthy (default VUndef (l !! i)) then alter g i l' else l')
  | Ret None => (Ret (), l')
  | Throw => (Throw, l')
  end.
Proof.
  intros Hf Ht. unfold tick_effect. rewrite Hf.
  destruct (findIndex (same_address u) l) as [[i|]|]; try done. by rewrite Ht.
Qed.

(** Two single ticks by commuting assignments commute. *)
Lemma tick_effect_commute (g h : value → value) (u v : value) (l : list value) :
  keeps_identity g → keeps_identity h → (∀ t, g (h t) = h (g t)) →
  (tick_effect g u (tick_effect h v l).2).1 = (tick_effect g u l).1 ∧
  (tick_effect g u (tick_effect h v l).2).2 =
  (tick_effect h v (tick_effect g u l).2).2.
Proof.
  intros Hg Hh Hgh.
  destruct (tick_effect_keeps_searches h v u l Hh) as [Hfu Htu].
  destruct (tick_effect_keeps_searches g u v l Hg) as [Hfv Htv].
  rewrite (tick_effect_on g u l _ Hfu Htu), (tick_effect_on h v l _ Hfv Htv).
  unfold tick_effect.
  destruct (findIndex (same_address u) l) as [[i|]|],
           (findIndex (same_address v) l) as [[j|]|]; simpl; try done;
    destruct (truthy (default VUndef (l !! i))); try done;
    try (destruct (truthy (default VUndef (l !! j))); try done).
  split; [done|]. by apply alter_alter_commute.
Qed.

Section CommutingLoops.
Variables G H : value → value → value.
Hypothesis HG : ∀ u, keeps_identity (G u).
Hypothesis HH : ∀ v, keeps_identity (H v).
Hypothesis HGH : ∀ u v t, G u (H v t) = H v (G u t).

(** One tick moves through a whole loop of the other kind. *)
Lemma tick_through_loop (u : value) (vs : list value) (l : list value) :
  (tick_effect (G u) u (tick_loop H vs l).2).1 = (tick_effect (G u) u l).1 ∧
  (tick_effect (G u) u (tick_loop H vs l).2).2 =
    (tick_loop H vs (tick_effect (G u) u l).2).2 ∧
  (tick_loop H vs (tick_effect (G u) u l).2).1 = (tick_loop H vs l).1.
Proof.
  revert l. induction vs as [|v vs IH]; intros l; [done|]. simpl.
  destruct (tick_effect_commute (G u) (H v) u v l (HG u) (HH v) (HGH u v))
    as [Ho Hl].
  destruct (tick_effect_commute (H v) (G u) v u l (HH v) (HG u)
              (λ t, eq_sym (HGH u v t))) as [Ho' Hl'].
  rewrite (surjective_pairing (tick_effect (H v) v (tick_effect (G u) u l).2)).
  rewrite Ho', <- Hl.
  rewrite (surjective_pairing (tick_effect (H v) v l)).
  destruct (tick_effect (H v) v l).1 as [[]|]; simpl.
  - destruct (IH (tick_effect (H v) v l).2) as (IH1 & IH2 & IH3).
    rewrite IH1, Ho. by rewrite IH2, IH3.
  - by rewrite Ho.
Qed.

Lemma tick_loops_commute (us vs : list value) (l : list value) :
  (tick_loop G us (tick_loop H vs l).2).1 = (tick_loop G us l).1 ∧
  (tick_loop G us (tick_loop H vs l).2).2 =
    (tick_loop H vs (tick_loop G us l).2).2 ∧
  (tick_loop H vs (tick_loop G us l).2).1 = (tick_loop H vs l).1.
Proof.
  revert l. induction us as [|u us IH]; intros l; [done|]. simpl.
  destruct (tick_through_loop u vs l) as (T1 & T2 & T3).
  rewrite (surjective_pairing (tick_effect (G u) u (tick_loop H vs l).2)).
  rewrite T1, T2.
  rewrite (surjective_pairing (tick_effect (G u) u l)).
  destruct (tick_effect (G u) u l).1 as [[]|]; simpl.
  - destruct (IH (tick_effect (G u) u l).2) as (IH1 & IH2 & IH3).
    by rewrite IH1, IH2, IH3, T3.
  - done.
Qed.
End CommutingLoops.

Lemma price_update_item_effect (u : value) (s : state) :
  price_update_item u s =
  ((tick_effect (price_assign u) u (allTokens s)).1,
   with_allTokens (tick_effect (price_assign u) u (allTokens s)).2 s).
Proof.
  unfold tick_effect.
  destruct (findIndex (same_address u) (allTokens s)) as [[i|]|] eqn:Hf; simpl.
  - pose proof Hf as (token & Hi & _)%findIndex_Some. rewrite Hi. simpl.
    destruct (truthy token) eqn:Ht.
    + destruct (price_update_item_found u s i token Hf Hi Ht) as (p & c & Hp & Hc & ->).
      unfold price_assign. rewrite Hp, Hc.
      by rewrite (alter_lookup_insert _ _ _ token Hi).
    + unfold price_update_item. unfold_M. rewrite Hf, Hi. simpl. rewrite Ht.
      by rewrite with_allTokens_same.
  - rewrite with_allTokens_same. by apply (pc_not_found _ price_update_item_callback).
  - unfold price_update_item. unfold_M. by rewrite Hf, with_allTokens_same.
Qed.

Lemma volume_spike_item_effect (v : value) (s : state) :
  volume_spike_item v s =
  ((tick_effect (volume_assign v) v (allTokens s)).1,
   with_allTokens (tick_effect (volume_assign v) v (allTokens s)).2 s).
Proof.
  unfold tick_effect.
  destruct (findIndex (same_address v) (allTokens s)) as [[i|]|] eqn:Hf; simpl.
  - pose proof Hf as (token & Hi & _)%findIndex_Some. rewrite Hi. simpl.
    destruct (truthy token) eqn:Ht.
    + destruct (volume_spike_item_found v s i token Hf Hi Ht) as (x & Hx & ->).
      unfold volume_assign. rewrite Hx.
      by rewrite (alter_lookup_insert _ _ _ token Hi).
    + unfold volume_spike_item. unfold_M. rewrite Hf, Hi. simpl. rewrite Ht.
      by rewrite with_allTokens_same.
  - rewrite with_allTokens_same. by apply (pc_not_found _ volume_spike_item_callback).
  - unfold volume_spike_item. unfold_M. by rewrite Hf, with_allTokens_same.
Qed.

Lemma forEach_tick_loop (f : value → M unit) (assign : value → value → value)
    (items : list value) (s : state) :
  (∀ x s0, f x s0 =
           ((tick_effect (assign x) x (allTokens s0)).1,
            with_allTokens (tick_effect (assign x) x (allTokens s0)).2 s0)) →
  forEach f items s =
  ((tick_loop assign items (allTokens s)).1,
   with_allTokens (tick_loop assign items (allTokens s)).2 s).
Proof.
  intros Hf. revert s. induction items as [|x items IH]; intros s; simpl.
  - by rewrite with_allTokens_same.
  - unfold bind. rewrite Hf.
    rewrite (surjective_pairing (tick_effect (assign x) x (allTokens s))).
    destruct (tick_effect (assign x) x (allTokens s)).1 as [[]|]; simpl; [|done].
    rewrite IH. simpl. by destruct s.
Qed.

(** X21. A price tick event and a volume tick event commute: whatever the two
    events carry (one object or a batch, known or unknown addresses, items
    that make a loop throw), the collection after the price event then the
    volume event is the collection after the volume event then the price
    event. *)
Theorem price_and_volume_ticks_commute (ev ev' : value) (s : state) :
  allTokens (volume_spike ev' (price_update ev s).2).2 =
  allTokens (price_update ev (volume_spike ev' s).2).2.
Proof.
  assert (∀ ev0 s0, allTokens (price_update ev0 s0).2 =
            match get ev0 "data" with
            | Ret d => (tick_loop price_assign (as_batch d) (allTokens s0)).2
            | Throw => allTokens s0
            end) as Hprice.
  { intros ev0 s0. rewrite price_update_effect. destruct (get ev0 "data"); [|done].
    by rewrite (forEach_tick_loop _ price_assign _ _ price_update_item_effect). }
  assert (∀ ev0 s0, allTokens (volume_spike ev0 s0).2 =
            match get ev0 "data" with
            | Ret d => (tick_loop volume_assign (as_batch d) (allTokens s0)).2
            | Throw => allTokens s0
            end) as Hvolume.
  { intros ev0 s0. rewrite volume_spike_effect. destruct (get ev0 "data"); [|done].
    by rewrite (forEach_tick_loop _ volume_assign _ _ volume_spike_item_effect). }
  rewrite Hvolume, Hprice, Hprice, Hvolume.
  destruct (get ev "data") as [d|], (get ev' "data") as [d'|]; try done.
  symmetry.
  apply (tick_loops_commute price_assign volume_assign
           price_assign_keeps_identity volume_assign_keeps_identity
           price_volume_assign_commute).
Qed.

(** Both orders on the record of address ["A"]. *)
Example ticks_commute_on_tickA :
  allTokens (volume_spike (with_data tickA) (price_update (with_data tickA) storeA).2).2 =
  [obj [("token_address", VStr "A"); ("price_sol", VNum 3); ("volume_sol", VNum 8);
        ("price_24hr_change", VNum 50)]].
Proof. vm_compute. reflexivity. Qed.

(** ** A collection without [null] entries *)

Lemma is_nullish_drop_props (ks : list string) (t : value) :
  is_nullish (drop_props ks t) = is_nullish t.
Proof. by destruct t. Qed.

Lemma tokens_updated_item_keeps_clean (x : value) (s : state) :
  Forall (λ t, is_nullish t = false) (allTokens s) →
  Forall (λ t, is_nullish t = false) (allTokens (tokens_updated_item x s).2).
Proof.
  intros Hall.
  destruct (findIndex (same_address x) (allTokens s)) as [[i|]|] eqn:Hf.
  - rewrite (tokens_updated_item_found x s i Hf). simpl. by apply Forall_insert.
  - by rewrite (tokens_updated_item_not_found x s Hf).
  - unfold tokens_updated_item. unfold_M. by rewrite Hf.
Qed.

Lemma tick_callback_keeps_clean (ks : list string) (f : value → M unit)
    (x : value) (s : state) :
  tick_callback ks f →
  Forall (λ t, is_nullish t = false) (allTokens s) →
  Forall (λ t, is_nullish t = false) (allTokens (f x s).2).
Proof.
  intros Hf Hall.
  destruct (tc_step ks f Hf x s) as [->|(i & g & _ & -> & Hg)]; [done|]. simpl.
  apply Forall_alter; [done|]. intros t _ Ht.
  by rewrite <- (is_nullish_drop_props ks (g t)), Hg, is_nullish_drop_props.
Qed.

Lemma unshift_bounded_keeps_clean (d : value) (l : list value) :
  truthy d = true →
  Forall (λ t, is_nullish t = false) l →
  Forall (λ t, is_nullish t = false) (unshift_bounded d l).
Proof.
  intros Hd Hl.
  assert (Forall (λ t, is_nullish t = false) (d :: l)) as Hdl.
  { constructor; [by destruct d|done]. }
  destruct (decide (length l < 100)%nat) as [Hlt|Hge].
  - by rewrite unshift_bounded_below.
  - destruct (unshift_bounded_evicts d l) as (z & _ & Hz); [lia|].
    rewrite <- Hz in Hdl. by apply Forall_app in Hdl as [? _].
Qed.

Lemma not_displayable_field (t : value) :
  is_nullish t = false → displayable t = false →
  Exists (λ v, stringifies v = false) (shown t).
Proof.
  unfold displayable. intros ->. simpl. intros H. by apply forallb_false_Exists.
Qed.

Lemma not_summable_field (t : value) :
  is_nullish t = false → summable t = false →
  Exists (λ v, stringifies v = false) (shown t).
Proof.
  unfold summable, shown. intros ->. simpl. intros H.
  do 5 apply Exists_cons_tl. by apply Exists_cons_hd.
Qed.

Lemma pageTokens_subseteq (s : state) (t : value) :
  t ∈ pageTokens s → t ∈ filteredTokens s.
Proof. unfold pageTokens, slice. intros Ht. by eapply subseteq_drop, subseteq_take. Qed.

(** X22. Once the collection holds no [null] or [undefined] entry, no event
    other than a pushed snapshot can bring one in: merges build objects,
    ticks assign into the record that is there, insertions take truthy
    payloads only and the bulk fetch empties the collection rather than
    keep such an entry.  Rendering such a state can still throw, but only
    on a record one of whose shown fields has no string form. *)
Theorem collection_stays_free_of_null (es : list event) (s : state) :
  Forall (λ t, is_nullish t = false) (allTokens s) →
  Forall (λ e, is_pushed_snapshot e = false) es →
  Forall (λ t, is_nullish t = false) (allTokens (run es s)) ∧
  ((applyClientFilters (run es s)).1 = Throw →
   Exists (λ t, Exists (λ v, stringifies v = false) (shown t))
     (allTokens (run es s))).
Proof.
  intros Hs Hes.
  assert (Forall (λ t, is_nullish t = false) (allTokens (run es s))) as Hclean.
  { induction es as [|e es IH] using rev_ind; [done|].
    apply Forall_app in Hes as [Hes He]. rewrite Forall_singleton in He.
    specialize (IH Hes). rewrite run_snoc. unfold step.
    destruct e as [v|v|v|v|v|r| | |]; try done; unfold handle.
    - rewrite tokens_updated_effect. destruct (get v "data") as [d|]; [|done].
      destruct (truthy d && isArray d); [|done].
      apply (forEach_inv (λ s', Forall (λ t, is_nullish t = false) (allTokens s')));
        [|done].
      intros x s0. apply tokens_updated_item_keeps_clean.
    - rewrite price_update_effect. destruct (get v "data") as [d|]; [|done].
      apply (forEach_inv (λ s', Forall (λ t, is_nullish t = false) (allTokens s')));
        [|done].
      intros x s0. apply (tick_callback_keeps_clean _ _ _ _ price_update_item_tick).
    - rewrite volume_spike_effect. destruct (get v "data") as [d|]; [|done].
      apply (forEach_inv (λ s', Forall (λ t, is_nullish t = false) (allTokens s')));
        [|done].
      intros x s0. apply (tick_callback_keeps_clean _ _ _ _ volume_spike_item_tick).
    - destruct (get v "data") as [d|] eqn:Hd.
      + destruct (truthy d) eqn:Ht.
        * rewrite (new_token_inserts v d _ Hd Ht). simpl.
          by apply unshift_bounded_keeps_clean.
        * by rewrite (new_token_ignores v d _ Hd Ht).
      + unfold new_token, incrUpdateCount. unfold_M. by rewrite Hd.
    - destruct (fetchTokens_resume_cases r (run es s))
        as [->|(data & l & ex & -> & Hv & _)]; [by simpl|].
      rewrite (fetchTokens_resume_array data l ex _ Hv).
      destruct (forallb _ l) eqn:Hb; [|by simpl].
      destruct (renders _); [|by simpl].
      simpl. by apply forallb_not_nullish.
    - rewrite prevPage_state. by destruct (1 <? _)%Z.
    - rewrite nextPage_state. by destruct (_ <? _)%Z. }
  split; [done|].
  rewrite applyClientFilters_outcome. simpl.
  destruct (renders (refreshed (run es s))) eqn:Hr; [done|]. intros _.
  unfold renders in Hr.
  destruct (pageTokens (refreshed (run es s))) as [|t0 page] eqn:Hpage; [done|].
  rewrite <- Hpage in Hr. rewrite Forall_forall in Hclean.
  apply andb_false_iff in Hr as [Hr|Hr]; apply forallb_false_Exists in Hr;
    apply Exists_exists in Hr as (t & Ht & Hbad); apply Exists_exists; exists t.
  - apply pageTokens_subseteq in Ht. split; [done|].
    apply not_displayable_field; [by apply Hclean|done].
  - split; [done|]. apply not_summable_field; [by apply Hclean|done].
Qed.

Lemma collection_stays_free_of_null_witness :
  Forall (λ t, is_nullish t = false) (allTokens (run four_updates storeA)).
Proof.
  apply (collection_stays_free_of_null four_updates storeA).
  - repeat constructor.
  - repeat constructor.
Defined.

(** An inserted record whose name has an own [toString] is no [null], and
    every later rendering of its page throws. *)
Example unprintable_insertion_throws :
  (new_token (with_data unprintable_token) storeA).1 = Throw ∧
  allTokens (new_token (with_data unprintable_token) storeA).2 =
    [unprintable_token; tokenA] ∧
  (applyClientFilters (new_token (with_data unprintable_token) storeA).2).1 = Throw.
Proof. vm_compute. repeat split; reflexivity. Qed.

(** ** A single object where a batch is expected *)

(** X23. A tick event may carry one object instead of an array: it is handled
    as the batch of that one item.  A bulk patch may not: with anything but
    an array as [data] the event is counted and otherwise ignored. *)
Theorem single_object_payloads (d : value) (s : state) :
  isArray d = false →
  price_update (with_data d) s = price_update (with_data (arr [d])) s ∧
  volume_spike (with_data d) s = volume_spike (with_data (arr [d])) s ∧
  tokens_updated (with_data d) s = (Ret (), counted s).
Proof.
  intros Hd. rewrite !price_update_batch, !volume_spike_batch. repeat split.
  - unfold price_update, incrUpdateCount.
    unfold bind at 1. unfold modify at 1. unfold bind at 1. unfold lift at 1.
    rewrite get_with_data. unfold as_batch. by rewrite Hd.
  - unfold volume_spike, incrUpdateCount.
    unfold bind at 1. unfold modify at 1. unfold bind at 1. unfold lift at 1.
    rewrite get_with_data. unfold as_batch. by rewrite Hd.
  - unfold tokens_updated, incrUpdateCount. unfold_M.
    rewrite get_with_data, Hd. by rewrite andb_false_r.
Qed.

Lemma single_object_payloads_witness :
  tokens_updated (with_data patchA) storeA = (Ret (), counted storeA).
Proof.
  apply (single_object_payloads patchA storeA). reflexivity.
Defined.
